(** * LumaDB vector index: [tdbai/vector_gpu.py]

    A shallow embedding of [GPUIndexConfig] and [GPUVectorIndex] and of the
    numpy operations they use, with the FAISS library taken as an interface
    ([Platform]).  Arrays passed by the caller live in a store, because the
    index methods normalise them in place. *)

From stdpp Require Import base numbers list strings.

Local Open Scope Z_scope.

(** ** numpy arrays *)

(** The element types the callers use.  [float32] is what FAISS wants. *)
Inductive dtype := float16 | float32 | float64 | int32 | int64.

Definition dtype_eqb (a b : dtype) : bool :=
  match a, b with
  | float16, float16 | float32, float32 | float64, float64
  | int32, int32 | int64, int64 => true
  | _, _ => false
  end.

(** ** The platform: numpy's floats and the FAISS library

    [FAISS_AVAILABLE] is the module constant set by the [try: import faiss]
    at the top of the file.  A FAISS call is a function of its arguments;
    it either raises ([inl]) or returns ([inr]), and a call on an index
    that raises leaves the index as it was.  [k] and the configuration
    fields are Python integers. *)
Class Platform := {
  float : Type;
  np_inf : float;
  np_zero : float;
  astype_float32 : dtype -> float -> float;

  FAISS_AVAILABLE : bool;
  faiss_error : Type;
  GpuResources : Type;
  Quantizer : Type;
  CpuIndex : Type;
  GpuIndex : Type;
  Disk : Type;

  StandardGpuResources : faiss_error + GpuResources;
  setTempMemory : GpuResources -> Z -> GpuResources;
  IndexFlatL2 : Z -> faiss_error + Quantizer;
  IndexIVFPQ : Quantizer -> Z -> Z -> Z -> Z -> faiss_error + CpuIndex;
  normalize_L2 : list (list float) -> list (list float);
  index_train : CpuIndex -> list (list float) -> faiss_error + CpuIndex;
  index_add : CpuIndex -> list (list float) -> faiss_error + CpuIndex;
  index_add_with_ids :
    CpuIndex -> list (list float) -> list Z -> faiss_error + CpuIndex;
  ntotal : CpuIndex -> Z;
  index_cpu_to_gpu_multiple_py :
    list GpuResources -> CpuIndex -> bool -> bool -> faiss_error + GpuIndex;
  gpu_search :
    GpuIndex -> Z -> list (list float) -> Z ->
    faiss_error + (list (list float) * list (list Z));
  write_index : CpuIndex -> string -> Disk -> faiss_error + Disk;
  read_index : string -> Disk -> faiss_error + CpuIndex
}.

Section Index.
Context {P : Platform}.

(** A two-dimensional array: its element type and its rows. *)
Record ndarray := NdArray { arr_dtype : dtype; arr_rows : list (list float) }.

(** [a.shape[0]] *)
Definition shape0 (a : ndarray) : nat := length (arr_rows a).

(** [a.astype(np.float32)]: a new array. *)
Definition astype_f32 (a : ndarray) : ndarray :=
  NdArray float32 (map (map (astype_float32 (arr_dtype a))) (arr_rows a)).

(** ** Exceptions *)
Inductive exn :=
| ValueError (msg : string)
| AttributeError (msg : string)
| IndexError (msg : string)
| NameError (msg : string)
| FaissError (e : faiss_error).

(** The error [add] raises on an index that has not been trained. *)
Definition UntrainedIndexError : exn :=
  ValueError "Index must be trained before adding vectors".

Definition of_faiss {A} (r : faiss_error + A) : exn + A :=
  match r with inl e => inl (FaissError e) | inr a => inr a end.

(** ** The index object *)
Record GPUIndexConfig := {
  dim : Z;
  nlist : Z;
  m : Z;
  nbits : Z;
  nprobe : Z;
  use_float16 : bool;
  num_gpus : Z
}.

(** [GPUIndexConfig(dim=d)] with the dataclass defaults. *)
Definition default_config (d : Z) : GPUIndexConfig :=
  {| dim := d; nlist := 16384; m := 64; nbits := 8; nprobe := 128;
     use_float16 := true; num_gpus := 1 |}.

(** [faiss.GpuMultipleClonerOptions] with the two fields the code sets. *)
Record ClonerOptions := { shard : bool; useFloat16 : bool }.

(** The object [self.gpu_index] refers to: the FAISS clone, and the [nprobe]
    attribute [search] assigns to it. *)
Record GpuIndexObj := { gpu_handle : GpuIndex; gpu_nprobe : option Z }.

(** The attributes [__init__] sets when FAISS is there ... *)
Record FaissAttrs := {
  gpu_resources : list GpuResources;
  cpu_index : CpuIndex;
  co : ClonerOptions;
  gpu_index : option GpuIndexObj
}.

(** ... and the one it sets when it is not. *)
Inductive Attrs :=
| MockAttrs (_mock_vectors : list (list float))
| NativeAttrs (a : FaissAttrs).

Record GPUVectorIndex := {
  config : GPUIndexConfig;
  self_dim : Z;
  is_trained : bool;
  attrs : Attrs
}.

Definition set_is_trained (b : bool) (s : GPUVectorIndex) : GPUVectorIndex :=
  {| config := config s; self_dim := self_dim s; is_trained := b;
     attrs := attrs s |}.

Definition set_attrs (a : Attrs) (s : GPUVectorIndex) : GPUVectorIndex :=
  {| config := config s; self_dim := self_dim s; is_trained := is_trained s;
     attrs := a |}.

Definition set_cpu_index (c : CpuIndex) (a : FaissAttrs) : FaissAttrs :=
  {| gpu_resources := gpu_resources a; cpu_index := c; co := co a;
     gpu_index := gpu_index a |}.

Definition set_gpu_index (g : option GpuIndexObj) (a : FaissAttrs)
  : FaissAttrs :=
  {| gpu_resources := gpu_resources a; cpu_index := cpu_index a; co := co a;
     gpu_index := g |}.

(** ** State and exceptions

    The caller's arrays and the disk form the world; a method runs in a
    frame, the world and the object it is called on.  An action returns the
    state it leaves behind also when it raises. *)
Record World := { heap : list ndarray; disk : Disk }.

Record Frame := { world : World; self : GPUVectorIndex }.

Definition Act (S A : Type) : Type := S -> S * (exn + A).

Definition ret {S A} (a : A) : Act S A := fun s => (s, inr a).

Definition raise {S A} (e : exn) : Act S A := fun s => (s, inl e).

Definition bind {S A B} (c : Act S A) (k : A -> Act S B) : Act S B :=
  fun s =>
    match c s with
    | (s', inl e) => (s', inl e)
    | (s', inr a) => k a s'
    end.

Definition lift {S A} (r : exn + A) : Act S A := fun s => (s, r).

Definition gets {S A} (f : S -> A) : Act S A := fun s => (s, inr (f s)).

Definition modify {S} (f : S -> S) : Act S unit := fun s => (f s, inr tt).

End Index.

Declare Scope act_scope.
Delimit Scope act_scope with act.
Notation "'let*' x := c 'in' k" := (bind c (fun x => k))
  (at level 10, x pattern, c at level 100, k at level 200) : act_scope.
Notation "c ;;; k" := (bind c (fun _ => k))
  (at level 100, k at level 200, right associativity) : act_scope.

Section Methods.
Context {P : Platform}.
Local Open Scope act_scope.

(** [for x in l: body(x)] *)
Fixpoint for_each {S A} (l : list A) (body : A -> Act S unit) : Act S unit :=
  match l with
  | [] => ret tt
  | x :: l' => body x ;;; for_each l' body
  end.

(** [for i in range(n): body(i)] *)
Definition for_range {S} (n : nat) (body : nat -> Act S unit) : Act S unit :=
  for_each (seq 0 n) body.

(** ** The store of arrays *)

Definition set_heap (h : list ndarray) (f : Frame) : Frame :=
  {| world := {| heap := h; disk := disk (world f) |}; self := self f |}.

Definition set_disk (d : Disk) (f : Frame) : Frame :=
  {| world := {| heap := heap (world f); disk := d |}; self := self f |}.

Definition set_self (s : GPUVectorIndex) (f : Frame) : Frame :=
  {| world := world f; self := s |}.

(** Reading the array a name is bound to.  A caller only passes arrays it
    holds, so the [NameError] stands for a call that cannot be written. *)
Definition deref (r : nat) : Act Frame ndarray :=
  fun f =>
    match heap (world f) !! r with
    | Some a => (f, inr a)
    | None => (f, inl (NameError "array"))
    end.

(** A new array, at the next free place of the store. *)
Definition alloc (a : ndarray) : Act Frame nat :=
  fun f => (set_heap (heap (world f) ++ [a]) f, inr (length (heap (world f)))).

(** [if v.dtype != np.float32: v = v.astype(np.float32)]: the name is bound
    to a copy only when the element type differs. *)
Definition as_float32 (v : nat) : Act Frame nat :=
  let* a := deref v in
  if negb (dtype_eqb (arr_dtype a) float32) then alloc (astype_f32 a)
  else ret v.

(** [faiss.normalize_L2(v)] overwrites the array [v] refers to. *)
Definition normalized (a : ndarray) : ndarray :=
  NdArray (arr_dtype a) (normalize_L2 (arr_rows a)).

Definition faiss_normalize_L2 (v : nat) : Act Frame unit :=
  let* a := deref v in
  modify (fun f => set_heap (<[v := normalized a]> (heap (world f))) f).

(** ** Attributes of [self] *)

Definition no_attribute (name : string) : exn :=
  AttributeError ("'GPUVectorIndex' object has no attribute '" +:+ name +:+ "'").

Definition native_attrs (name : string) : Act Frame FaissAttrs :=
  fun f =>
    match attrs (self f) with
    | NativeAttrs a => (f, inr a)
    | MockAttrs _ => (f, inl (no_attribute name))
    end.

Definition mock_vectors : Act Frame (list (list float)) :=
  fun f =>
    match attrs (self f) with
    | MockAttrs l => (f, inr l)
    | NativeAttrs _ => (f, inl (no_attribute "_mock_vectors"))
    end.

Definition update_native (name : string) (g : FaissAttrs -> FaissAttrs)
  : Act Frame unit :=
  let* a := native_attrs name in
  modify (fun f => set_self (set_attrs (NativeAttrs (g a)) (self f)) f).

(** ** [GPUVectorIndex.__init__] *)

Definition new_gpu_resource : Act (list GpuResources) unit :=
  let* res := lift (of_faiss StandardGpuResources) in
  modify (fun rs => rs ++ [setTempMemory res (1024 * 1024 * 1024)]).

Definition __init__ (config : GPUIndexConfig) : exn + GPUVectorIndex :=
  if negb FAISS_AVAILABLE then
    inr {| config := config; self_dim := dim config; is_trained := false;
           attrs := MockAttrs [] |}
  else
    match for_range (Z.to_nat (num_gpus config))
                    (fun _ => new_gpu_resource) [] with
    | (_, inl e) => inl e
    | (rs, inr _) =>
      match of_faiss (IndexFlatL2 (dim config)) with
      | inl e => inl e
      | inr quantizer =>
        match of_faiss (IndexIVFPQ quantizer (dim config) (nlist config)
                                   (m config) (nbits config)) with
        | inl e => inl e
        | inr c =>
          inr {| config := config; self_dim := dim config;
                 is_trained := false;
                 attrs := NativeAttrs
                   {| gpu_resources := rs; cpu_index := c;
                      co := {| shard := true;
                               useFloat16 := use_float16 config |};
                      gpu_index := None |} |}
        end
      end
    end.

(** ** [GPUVectorIndex._sync_to_gpu] *)

Definition _sync_to_gpu : Act Frame unit :=
  if negb FAISS_AVAILABLE then ret tt
  else
    let* a := native_attrs "gpu_resources" in
    match gpu_resources a with
    | [] => ret tt
    | _ :: _ =>
      let* g := lift (of_faiss (index_cpu_to_gpu_multiple_py
                                  (gpu_resources a) (cpu_index a)
                                  (shard (co a)) (useFloat16 (co a)))) in
      update_native "gpu_index"
        (set_gpu_index (Some {| gpu_handle := g; gpu_nprobe := None |}))
    end.

(** ** [GPUVectorIndex.train] *)

Definition train (vectors : nat) : Act Frame unit :=
  if negb FAISS_AVAILABLE then
    modify (fun f => set_self (set_is_trained true (self f)) f)
  else
    let* vectors := as_float32 vectors in
    faiss_normalize_L2 vectors ;;;
    let* a := native_attrs "cpu_index" in
    let* v := deref vectors in
    let* c := lift (of_faiss (index_train (cpu_index a) (arr_rows v))) in
    update_native "cpu_index" (set_cpu_index c) ;;;
    _sync_to_gpu ;;;
    modify (fun f => set_self (set_is_trained true (self f)) f).

(** ** [GPUVectorIndex.add] *)

Definition add (vectors : nat) (ids : option (list Z)) : Act Frame unit :=
  let* trained := gets (fun f => is_trained (self f)) in
  if negb trained then raise UntrainedIndexError
  else if negb FAISS_AVAILABLE then
    let* l := mock_vectors in
    let* v := deref vectors in
    modify (fun f =>
      set_self (set_attrs (MockAttrs (l ++ arr_rows v)) (self f)) f)
  else
    let* vectors := as_float32 vectors in
    faiss_normalize_L2 vectors ;;;
    let* a := native_attrs "cpu_index" in
    let* v := deref vectors in
    let* c := lift (of_faiss
                (match ids with
                 | Some ids => index_add_with_ids (cpu_index a) (arr_rows v) ids
                 | None => index_add (cpu_index a) (arr_rows v)
                 end)) in
    update_native "cpu_index" (set_cpu_index c) ;;;
    _sync_to_gpu.

(** ** numpy constructors *)

(** [np.full((n, k), v)]; [np.zeros] is [np.full] of zero. *)
Definition np_full {S A} (n : nat) (k : Z) (v : A) : Act S (list (list A)) :=
  if k <? 0 then raise (ValueError "negative dimensions are not allowed")
  else ret (replicate n (replicate (Z.to_nat k) v)).

(** ** [GPUVectorIndex.search] *)

(** [if nprobe is None: nprobe = self.config.nprobe] *)
Definition nprobe_or_default (cfg : GPUIndexConfig) (nprobe_arg : option Z)
  : Z :=
  match nprobe_arg with None => nprobe cfg | Some n => n end.

Definition search (queries : nat) (k : Z) (nprobe_arg : option Z)
  : Act Frame (list (list float) * list (list Z)) :=
  if negb FAISS_AVAILABLE then
    let* q := deref queries in
    let n := shape0 q in
    let* distances := np_full n k np_zero in
    let* indices := np_full n k 0 in
    ret (distances, indices)
  else
    let* queries := as_float32 queries in
    faiss_normalize_L2 queries ;;;
    let* cfg := gets (fun f => config (self f)) in
    let nprobe_val := nprobe_or_default cfg nprobe_arg in
    let* a := native_attrs "gpu_index" in
    match gpu_index a with
    | None =>
      raise (AttributeError "'NoneType' object has no attribute 'nprobe'")
    | Some g =>
      let g' := {| gpu_handle := gpu_handle g;
                   gpu_nprobe := Some nprobe_val |} in
      update_native "gpu_index" (set_gpu_index (Some g')) ;;;
      let* q := deref queries in
      lift (of_faiss (gpu_search (gpu_handle g') nprobe_val (arr_rows q) k))
    end.

(** ** numpy indexing *)

(** [a[i]] on the first axis. *)
Definition index_row {A} (a : list (list A)) (i : nat) : exn + list A :=
  match a !! i with
  | Some row => inr row
  | None => inl (IndexError "index is out of bounds for axis 0")
  end.

(** The entries of [row] where [mask] holds. *)
Fixpoint compress {A} (mask : list bool) (row : list A) : list A :=
  match mask, row with
  | b :: mask', x :: row' =>
    if b then x :: compress mask' row' else compress mask' row'
  | _, _ => []
  end.

(** [row[mask]] with a boolean mask, which must be as long as the row. *)
Definition bool_index {A} (row : list A) (mask : list bool) : exn + list A :=
  if (length mask =? length row)%nat then inr (compress mask row)
  else inl (IndexError "boolean index did not match indexed array").

(** [l[:n]] *)
Definition slice_to {A} (n : Z) (l : list A) : list A :=
  if n <? 0 then take (length l - Z.to_nat (- n)) l
  else take (Z.to_nat n) l.

(** [a[i, :n] = vals] *)
Definition assign_row_prefix {A} (a : list (list A)) (i : nat) (n : Z)
    (vals : list A) : exn + list (list A) :=
  match a !! i with
  | None => inl (IndexError "index is out of bounds for axis 0")
  | Some row =>
    let target := length (slice_to n row) in
    if (length vals =? target)%nat then
      inr (<[i := vals ++ drop target row]> a)
    else
      match vals with
      | [x] => inr (<[i := replicate target x ++ drop target row]> a)
      | _ => inl (ValueError "could not broadcast input array")
      end
  end.

(** [np.isin(indices, filter_ids)] *)
Definition np_isin (indices : list (list Z)) (filter_ids : list Z)
  : list (list bool) :=
  map (map (fun i => bool_decide (i ∈ filter_ids))) indices.

(** ** [GPUVectorIndex.search_with_filter] *)

(** The two output arrays, the local state of the loop. *)
Definition Filtered : Type := list (list float) * list (list Z).

(** The body of [for i in range(n_queries)]. *)
Definition filter_row (mask : list (list bool))
    (distances : list (list float)) (indices : list (list Z)) (k : Z)
    (i : nat) : Act Filtered unit :=
  let* valid_mask := lift (index_row mask i) in
  let* row_d := lift (index_row distances i) in
  let* valid_dists := lift (bool_index row_d valid_mask) in
  let* row_i := lift (index_row indices i) in
  let* valid_ids := lift (bool_index row_i valid_mask) in
  let n_valid := Z.min (Z.of_nat (length valid_dists)) k in
  let* filtered_distances := gets fst in
  let* fd := lift (assign_row_prefix filtered_distances i n_valid
                     (slice_to n_valid valid_dists)) in
  modify (fun st => (fd, snd st)) ;;;
  let* filtered_indices := gets snd in
  let* fi := lift (assign_row_prefix filtered_indices i n_valid
                     (slice_to n_valid valid_ids)) in
  modify (fun st => (fst st, fi)).

(** Running a loop over local variables inside a method. *)
Definition with_locals {S L} (c : Act L unit) (l : L) : Act S L :=
  fun s =>
    match c l with
    | (_, inl e) => (s, inl e)
    | (l', inr _) => (s, inr l')
    end.

Definition search_with_filter (queries : nat) (k : Z) (filter_ids : list Z)
  : Act Frame Filtered :=
  let* found := search queries (k * 10) None in
  let distances := fst found in
  let indices := snd found in
  let mask := np_isin indices filter_ids in
  let* q := deref queries in
  let n_queries := shape0 q in
  let* filtered_distances := np_full n_queries k np_inf in
  let* filtered_indices := np_full n_queries k (-1) in
  with_locals (for_range n_queries (filter_row mask distances indices k))
              (filtered_distances, filtered_indices).

(** ** [GPUVectorIndex.save] and [GPUVectorIndex.load] *)

Definition save (path : string) : Act Frame unit :=
  if FAISS_AVAILABLE then
    let* a := native_attrs "cpu_index" in
    let* d := gets (fun f => disk (world f)) in
    let* d' := lift (of_faiss (write_index (cpu_index a) path d)) in
    modify (set_disk d')
  else ret tt.

(** Running method calls on an object that was just built; the object is
    the result. *)
Definition on_new_object {A} (index : GPUVectorIndex) (c : Act Frame A)
  : Act World GPUVectorIndex :=
  fun w =>
    match c {| world := w; self := index |} with
    | (f, inl e) => (world f, inl e)
    | (f, inr _) => (world f, inr (self f))
    end.

Definition load (path : string) (config : GPUIndexConfig)
  : Act World GPUVectorIndex :=
  let* index := lift (__init__ config) in
  if FAISS_AVAILABLE then
    on_new_object index
      (let* d := gets (fun f => disk (world f)) in
       let* c := lift (of_faiss (read_index path d)) in
       update_native "cpu_index" (set_cpu_index c) ;;;
       _sync_to_gpu ;;;
       modify (fun f => set_self (set_is_trained true (self f)) f))
  else ret index.

(** ** [GPUVectorIndex.__len__] *)

Definition __len__ : Act Frame Z :=
  if negb FAISS_AVAILABLE then
    let* l := mock_vectors in
    ret (Z.of_nat (length l))
  else
    let* a := native_attrs "cpu_index" in
    ret (ntotal (cpu_index a)).

End Methods.

(** ** A caller holding several indexes

    [GPUVectorIndex(config)] and [GPUVectorIndex.load] build a new object;
    the other calls are methods of an object the caller already holds.  The
    caller sees whether a call returned or raised. *)
Section Caller.
Context {P : Platform}.

Inductive call :=
| CallInit (config : GPUIndexConfig)
| CallLoad (path : string) (config : GPUIndexConfig)
| CallTrain (o : nat) (vectors : nat)
| CallAdd (o : nat) (vectors : nat) (ids : option (list Z))
| CallSearch (o : nat) (queries : nat) (k : Z) (nprobe_arg : option Z)
| CallSearchWithFilter (o : nat) (queries : nat) (k : Z)
                       (filter_ids : list Z)
| CallSave (o : nat) (path : string).

Inductive outcome := Returned | Raised (e : exn).

Definition outcome_of {A} (r : exn + A) : outcome :=
  match r with inl e => Raised e | inr _ => Returned end.

Record Program := { pworld : World; objects : list GPUVectorIndex }.

(** A method call on the object held at [o]. *)
Definition invoke {A} (o : nat) (c : Act Frame A) (p : Program)
  : Program * outcome :=
  match objects p !! o with
  | None => (p, Raised (NameError "index"))
  | Some s =>
    match c {| world := pworld p; self := s |} with
    | (f, r) =>
      ({| pworld := world f; objects := <[o := self f]> (objects p) |},
       outcome_of r)
    end
  end.

(** A call that builds an object; the caller holds it when the call
    returns. *)
Definition construct (c : Act World GPUVectorIndex) (p : Program)
  : Program * outcome :=
  match c (pworld p) with
  | (w, inl e) => ({| pworld := w; objects := objects p |}, Raised e)
  | (w, inr s) => ({| pworld := w; objects := objects p ++ [s] |}, Returned)
  end.

Definition step (p : Program) (c : call) : Program * outcome :=
  match c with
  | CallInit config => construct (lift (__init__ config)) p
  | CallLoad path config => construct (load path config) p
  | CallTrain o vectors => invoke o (train vectors) p
  | CallAdd o vectors ids => invoke o (add vectors ids) p
  | CallSearch o queries k np => invoke o (search queries k np) p
  | CallSearchWithFilter o queries k filter_ids =>
    invoke o (search_with_filter queries k filter_ids) p
  | CallSave o path => invoke o (save path) p
  end.

Definition run (p : Program) (cs : list call) : Program :=
  fold_left (fun p c => fst (step p c)) cs p.

(** The indexes a caller can hold: built by [__init__] or [load], then used
    through the methods, in any world. *)
Inductive reachable : GPUVectorIndex -> Prop :=
| reach_init config s :
    __init__ config = inr s -> reachable s
| reach_load path config w w' s :
    load path config w = (w', inr s) -> reachable s
| reach_train s vectors w f r :
    reachable s ->
    train vectors {| world := w; self := s |} = (f, r) ->
    reachable (self f)
| reach_add s vectors ids w f r :
    reachable s ->
    add vectors ids {| world := w; self := s |} = (f, r) ->
    reachable (self f)
| reach_search s queries k np w f r :
    reachable s ->
    search queries k np {| world := w; self := s |} = (f, r) ->
    reachable (self f)
| reach_search_with_filter s queries k filter_ids w f r :
    reachable s ->
    search_with_filter queries k filter_ids {| world := w; self := s |}
      = (f, r) ->
    reachable (self f)
| reach_save s path w f r :
    reachable s ->
    save path {| world := w; self := s |} = (f, r) ->
    reachable (self f).

(** ** The filter, as the design states it

    Candidates whose id is not allowed are discarded, the first [k]
    survivors are kept in the order of the unfiltered result, and the row
    is filled up with the pair [(+inf, -1)]. *)
Definition survivors (allowed : list Z) (dists : list float) (ids : list Z)
  : list (float * Z) :=
  filter (fun c => c.2 ∈ allowed) (zip dists ids).

Definition filtered_row (k : nat) (allowed : list Z) (dists : list float)
    (ids : list Z) : list (float * Z) :=
  let kept := take k (survivors allowed dists ids) in
  kept ++ replicate (k - length kept)%nat (np_inf, -1).

Definition filter_spec (k : nat) (allowed : list Z)
    (found : list (list float) * list (list Z)) : Filtered :=
  let rows := zip_with (filtered_row k allowed) found.1 found.2 in
  (map (map fst) rows, map (map snd) rows).

(** What the code expects of the arrays [search] hands back: one row per
    query, and as many ids as distances in each. *)
Definition well_shaped (n : nat) (found : list (list float) * list (list Z))
  : Prop :=
  length found.1 = n /\ length found.2 = n /\
  Forall2 (fun d i => length d = length i) found.1 found.2.

(** The GPU resources [__init__] allocates for a configuration. *)
Definition resources_of (config : GPUIndexConfig) : list GpuResources :=
  match StandardGpuResources with
  | inl _ => []
  | inr res =>
    replicate (Z.to_nat (num_gpus config))
              (setTempMemory res (1024 * 1024 * 1024))
  end.

(** The device copy is current: it is the copy [_sync_to_gpu] makes of the
    host index as it is now, up to the [nprobe] that [search] assigns.  With
    no GPU resources there is no device copy at all. *)
Definition device_current (a : FaissAttrs) : Prop :=
  match gpu_resources a with
  | [] => gpu_index a = None
  | _ :: _ =>
    forall g,
      index_cpu_to_gpu_multiple_py (gpu_resources a) (cpu_index a)
        (shard (co a)) (useFloat16 (co a)) = inr g ->
      exists np, gpu_index a = Some {| gpu_handle := g; gpu_nprobe := np |}
  end.

(** What holds of every index a caller can hold: the attributes are those
    of the platform, the resources and cloner options are those of the
    configuration, and once the index is trained the device copy is
    current (or cannot be made). *)
Definition consistent (s : GPUVectorIndex) : Prop :=
  match attrs s with
  | MockAttrs _ => FAISS_AVAILABLE = false
  | NativeAttrs a =>
    FAISS_AVAILABLE = true /\
    gpu_resources a = resources_of (config s) /\
    co a = {| shard := true; useFloat16 := use_float16 (config s) |} /\
    (gpu_resources a = [] -> gpu_index a = None) /\
    (is_trained s = true -> device_current a)
  end.

(** ** Notions used in the statements below *)


(** The output arrays of the filter loop once the rows before [a] are
    written. *)
Definition written {A} (a n k : nat) (v : A) (rows : list (list A))
  : list (list A) :=
  take a rows ++ replicate (n - a) (replicate k v).

(** The store after [as_float32] and [faiss.normalize_L2] on the array [a]
    at [v], and the place of the array FAISS is then given: [v] itself for
    a [float32] array, a new place for any other. *)
Definition prepared (h : list ndarray) (v : nat) (a : ndarray)
  : list ndarray * nat :=
  if dtype_eqb (arr_dtype a) float32 then (<[v := normalized a]> h, v)
  else (h ++ [normalized (astype_f32 a)], length h).

(** The array FAISS is given. *)
Definition prepared_array (a : ndarray) : ndarray :=
  if dtype_eqb (arr_dtype a) float32 then normalized a
  else normalized (astype_f32 a).

(** The frame [search] leaves when FAISS is there: the queries prepared,
    and [nprobe] assigned on the device copy if there is one. *)
Definition searched (queries : nat) (np : option Z) (f : Frame) (a : ndarray)
  : Frame :=
  let f1 := set_heap (prepared (heap (world f)) queries a).1 f in
  match attrs (self f) with
  | MockAttrs _ => f1
  | NativeAttrs at_ =>
    match gpu_index at_ with
    | None => f1
    | Some g =>
      set_self
        (set_attrs
           (NativeAttrs
              (set_gpu_index
                 (Some {| gpu_handle := gpu_handle g;
                          gpu_nprobe :=
                            Some (nprobe_or_default (config (self f)) np) |})
                 at_))
           (self f)) f1
    end
  end.

(** What [_sync_to_gpu] makes of the FAISS attributes: nothing without GPU
    resources, else a new device copy, unless the copying raises. *)
Definition sync_attrs (a : FaissAttrs) : exn + FaissAttrs :=
  match gpu_resources a with
  | [] => inr a
  | _ :: _ =>
    match index_cpu_to_gpu_multiple_py (gpu_resources a) (cpu_index a)
            (shard (co a)) (useFloat16 (co a)) with
    | inl e => inl (FaissError e)
    | inr g =>
      inr (set_gpu_index (Some {| gpu_handle := g; gpu_nprobe := None |}) a)
    end
  end.

(** The frame with other FAISS attributes on [self]. *)
Definition with_native (a : FaissAttrs) (f : Frame) : Frame :=
  set_self (set_attrs (NativeAttrs a) (self f)) f.

(** The frame with [self.is_trained = True]. *)
Definition now_trained (f : Frame) : Frame :=
  set_self (set_is_trained true (self f)) f.

(** [keeps R c]: the state [c] leaves, returning or raising, is related by
    [R] to the state it started in. *)
Definition keeps {S A} (R : S -> S -> Prop) (c : Act S A) : Prop :=
  forall s s' r, c s = (s', r) -> R s s'.

(** [raises_only Q c]: every exception [c] raises satisfies [Q]. *)
Definition raises_only {S A} (Q : exn -> Prop) (c : Act S A) : Prop :=
  forall s s' e, c s = (s', inl e) -> Q e.

(** An exception that is not the [ValueError] of an untrained index. *)
Definition not_state_error (e : exn) : Prop := e <> UntrainedIndexError.

(** Relations between the frame before and after a call. *)
Definition same_trained (f f' : Frame) : Prop :=
  is_trained (self f') = is_trained (self f).

Definition same_self (f f' : Frame) : Prop := self f' = self f.

Definition same_frame (f f' : Frame) : Prop := f' = f.

Definition same_heap (f f' : Frame) : Prop :=
  heap (world f') = heap (world f).

End Caller.

(** ** A host platform for examples

    Exact numbers in place of floats, and a flat index in place of the
    IVF-PQ one: enough of FAISS to run the methods above on inputs. *)
Module Host.

Inductive num := Num (z : Z) | Inf.

Definition num_leb (a b : num) : bool :=
  match a, b with
  | _, Inf => true
  | Inf, Num _ => false
  | Num x, Num y => x <=? y
  end.

Definition num_add (a b : num) : num :=
  match a, b with
  | Num x, Num y => Num (x + y)
  | _, _ => Inf
  end.

Definition sq_diff (a b : num) : num :=
  match a, b with
  | Num x, Num y => Num ((x - y) * (x - y))
  | _, _ => Inf
  end.

(** Squared distance of two vectors. *)
Definition distance (u v : list num) : num :=
  foldr num_add (Num 0) (zip_with sq_diff u v).

(** A row is scaled down by the greatest common divisor of its entries. *)
Definition row_gcd (row : list num) : Z :=
  foldr (fun x g => match x with Num z => Z.gcd z g | Inf => g end) 0 row.

Definition normalize_row (row : list num) : list num :=
  let g := row_gcd row in
  if g =? 0 then row
  else map (fun x => match x with Num z => Num (z / g) | Inf => Inf end) row.

Record FlatIndex := {
  d : Z;
  f_nlist : Z;
  f_m : Z;
  f_nbits : Z;
  f_trained : bool;
  entries : list (Z * list num)
}.

Definition with_entries (es : list (Z * list num)) (c : FlatIndex)
  : FlatIndex :=
  {| d := d c; f_nlist := f_nlist c; f_m := f_m c; f_nbits := f_nbits c;
     f_trained := f_trained c; entries := es |}.

Definition new_index (dim nlist m nbits : Z) : string + FlatIndex :=
  if (0 <? m) && (dim mod m =? 0) then
    inr {| d := dim; f_nlist := nlist; f_m := m; f_nbits := nbits;
           f_trained := false; entries := [] |}
  else inl "the dimension must be a multiple of the number of subquantizers".

Definition train_index (c : FlatIndex) (v : list (list num))
  : string + FlatIndex :=
  if Z.of_nat (length v) <? f_nlist c then
    inl "fewer training points than clusters"
  else
    inr {| d := d c; f_nlist := f_nlist c; f_m := f_m c;
           f_nbits := f_nbits c; f_trained := true; entries := entries c |}.

Definition add_with_ids (c : FlatIndex) (v : list (list num)) (ids : list Z)
  : string + FlatIndex :=
  if negb (f_trained c) then inl "the index is not trained"
  else if negb (length ids =? length v)%nat then inl "one id per vector"
  else inr (with_entries (entries c ++ zip ids v) c).

Definition add_index (c : FlatIndex) (v : list (list num))
  : string + FlatIndex :=
  add_with_ids c v
    (map (fun i => Z.of_nat (length (entries c) + i)) (seq 0 (length v))).

(** Insertion into a list of candidates ordered by distance. *)
Fixpoint insert_candidate (c : num * Z) (l : list (num * Z))
  : list (num * Z) :=
  match l with
  | [] => [c]
  | c' :: l' =>
    if num_leb c'.1 c.1 then c' :: insert_candidate c l' else c :: l
  end.

Definition nearest (c : FlatIndex) (k : nat) (q : list num)
  : list (num * Z) :=
  let sorted :=
    foldr insert_candidate []
          (map (fun e => (distance q e.2, e.1)) (entries c)) in
  let kept := take k sorted in
  kept ++ replicate (k - length kept)%nat (Inf, -1).

Definition search_index (c : FlatIndex) (np : Z) (qs : list (list num))
    (k : Z) : string + (list (list num) * list (list Z)) :=
  if k <? 0 then inl "k must not be negative"
  else
    let rows := map (nearest c (Z.to_nat k)) qs in
    inr (map (map fst) rows, map (map snd) rows).

Definition Files : Type := list (string * FlatIndex).

Fixpoint read (path : string) (fs : Files) : string + FlatIndex :=
  match fs with
  | [] => inl "could not open the file"
  | (p, c) :: fs' => if String.eqb p path then inr c else read path fs'
  end.

(** The platform; [available] says whether [import faiss] succeeded. *)
Definition platform (available : bool) : Platform :=
  {| float := num;
     np_inf := Inf;
     np_zero := Num 0;
     astype_float32 := fun _ x => x;
     FAISS_AVAILABLE := available;
     faiss_error := string;
     GpuResources := unit;
     Quantizer := Z;
     CpuIndex := FlatIndex;
     GpuIndex := FlatIndex;
     Disk := Files;
     StandardGpuResources := inr tt;
     setTempMemory := fun r _ => r;
     IndexFlatL2 := fun dim => inr dim;
     IndexIVFPQ := fun _ dim nlist m nbits => new_index dim nlist m nbits;
     normalize_L2 := map normalize_row;
     index_train := train_index;
     index_add := add_index;
     index_add_with_ids := add_with_ids;
     ntotal := fun c => Z.of_nat (length (entries c));
     index_cpu_to_gpu_multiple_py := fun _ c _ _ => inr c;
     gpu_search := search_index;
     write_index := fun c path fs => inr ((path, c) :: fs);
     read_index := read |}.

(** The platform with FAISS and a device that holds at most [capacity]
    vectors: copying a larger index to it fails. *)
Definition platform_with_memory (capacity : nat) : Platform :=
  {| float := num;
     np_inf := Inf;
     np_zero := Num 0;
     astype_float32 := fun _ x => x;
     FAISS_AVAILABLE := true;
     faiss_error := string;
     GpuResources := unit;
     Quantizer := Z;
     CpuIndex := FlatIndex;
     GpuIndex := FlatIndex;
     Disk := Files;
     StandardGpuResources := inr tt;
     setTempMemory := fun r _ => r;
     IndexFlatL2 := fun dim => inr dim;
     IndexIVFPQ := fun _ dim nlist m nbits => new_index dim nlist m nbits;
     normalize_L2 := map normalize_row;
     index_train := train_index;
     index_add := add_index;
     index_add_with_ids := add_with_ids;
     ntotal := fun c => Z.of_nat (length (entries c));
     index_cpu_to_gpu_multiple_py := fun _ c _ _ =>
       if (length (entries c) <=? capacity)%nat then inr c
       else inl "out of memory";
     gpu_search := search_index;
     write_index := fun c path fs => inr ((path, c) :: fs);
     read_index := read |}.

(** *** Example inputs *)

(** A small configuration: two clusters, one GPU. *)
Definition small : GPUIndexConfig :=
  {| dim := 4; nlist := 2; m := 2; nbits := 4; nprobe := 1;
     use_float16 := true; num_gpus := 1 |}.

Definition array (available : bool) (dt : dtype) (rows : list (list Z))
  : @ndarray (platform available) :=
  @NdArray (platform available) dt (map (map Num) rows).

(** The caller's arrays: two vectors at place 0, one query at place 1, and
    the two vectors once more, as [float64], at place 2. *)
Definition start (available : bool) : @World (platform available) :=
  {| heap := [array available float32 [[2; 4; 0; 0]; [0; 0; 3; 9]];
              array available float32 [[2; 0; 0; 0]];
              array available float64 [[2; 4; 0; 0]; [0; 0; 3; 9]]];
     disk := [] |}.

(** The index [GPUVectorIndex(config)] builds. *)
Definition fresh (available : bool) (config : GPUIndexConfig)
  : @GPUVectorIndex (platform available) :=
  match __init__ config with
  | inr s => s
  | inl _ =>
    {| config := config; self_dim := dim config; is_trained := false;
       attrs := MockAttrs [] |}
  end.

Definition fresh_frame (available : bool) (config : GPUIndexConfig)
  : @Frame (platform available) :=
  {| world := start available; self := fresh available config |}.

(** After [train] on the vectors; and after [add] of the vectors too. *)
Definition trained_frame (available : bool) : @Frame (platform available) :=
  (train 0 (fresh_frame available small)).1.

Definition filled_frame (available : bool) : @Frame (platform available) :=
  (add 0 None (trained_frame available)).1.


(** A caller who has built one index. *)
Definition one_index (available : bool) : @Program (platform available) :=
  {| pworld := start available; objects := [fresh available small] |}.

(** The small configuration for a machine without GPUs. *)
Definition host_only : GPUIndexConfig :=
  {| dim := 4; nlist := 2; m := 2; nbits := 4; nprobe := 1;
     use_float16 := true; num_gpus := 0 |}.

(** The two vectors and the index trained on them, on a device with room
    for one vector. *)
Definition crowded_frame : @Frame (platform_with_memory 1) :=
  (train 0
     (@Build_Frame (platform_with_memory 1)
        (@Build_World (platform_with_memory 1)
           [@NdArray (platform_with_memory 1) float32
              (map (map Num) [[2; 4; 0; 0]; [0; 0; 3; 9]])] [])
        match @__init__ (platform_with_memory 1) small with
        | inr s => s
        | inl _ =>
          @Build_GPUVectorIndex (platform_with_memory 1) small 4 false
            (@MockAttrs (platform_with_memory 1) [])
        end)).1.

End Host.

(** * The REST service: [tdbai/vector_service.py]

    The handlers of [create_app], run one after the other on the global
    index.  Time is read from a clock; what is computed from two readings is
    left to the platform's floats. *)
Class Clock {P : Platform} := {
  Ticks : Type;
  perf_counter : Ticks -> Ticks * float;
  elapsed_ms : float -> float -> float
}.

Module SearchRequest.
Record t {P : Platform} := {
  vectors : list (list float);
  k : Z;
  nprobe : Z;
  filter_ids : option (list Z)
}.
End SearchRequest.

Module SearchResponse.
Record t {P : Platform} := {
  distances : list (list float);
  indices : list (list Z);
  latency_ms : float
}.
End SearchResponse.

Module AddRequest.
Record t {P : Platform} := {
  vectors : list (list float);
  ids : option (list Z)
}.
End AddRequest.

Module AddResponse.
Record t {P : Platform} := { count : Z; latency_ms : float }.
End AddResponse.

(** The dictionary [/train] returns. *)
Module TrainResponse.
Record t {P : Platform} := { status : string; latency_ms : float }.
End TrainResponse.

(** The dictionary [/health] returns. *)
Module HealthResponse.
Record t := { status : string; vectors : Z }.
End HealthResponse.

Section Service.
Context {P : Platform} {C : Clock}.
Local Open Scope act_scope.

(** The process: the arrays and the disk, the module global [_index], and
    the clock. *)
Record Service := {
  sworld : World;
  _index : option GPUVectorIndex;
  ticks : Ticks
}.

(** [SearchRequest(vectors=v)] with the defaults of the model. *)
Definition search_request (v : list (list float)) : SearchRequest.t :=
  {| SearchRequest.vectors := v; SearchRequest.k := 10;
     SearchRequest.nprobe := 128; SearchRequest.filter_ids := None |}.

(** [time.perf_counter()] *)
Definition clock : Act Service float :=
  fun sv =>
    match perf_counter (ticks sv) with
    | (t, now) =>
      ({| sworld := sworld sv; _index := _index sv; ticks := t |}, inr now)
    end.

(** [get_index()]: the global index, built on first use. *)
Definition get_index : Act Service unit :=
  fun sv =>
    match _index sv with
    | Some _ => (sv, inr tt)
    | None =>
      match __init__ (default_config 768) with
      | inl e => (sv, inl e)
      | inr s =>
        ({| sworld := sworld sv; _index := Some s; ticks := ticks sv |},
         inr tt)
      end
    end.

(** A method call on the object [get_index()] returned. *)
Definition on_index {A} (c : Act Frame A) : Act Service A :=
  fun sv =>
    match _index sv with
    | None =>
      (sv, inl (AttributeError "'NoneType' object has no attribute"))
    | Some s =>
      match c {| world := sworld sv; self := s |} with
      | (f, r) =>
        ({| sworld := world f; _index := Some (self f); ticks := ticks sv |},
         r)
      end
    end.

(** The rows of a list of lists all have the length of the first. *)
Definition rectangular {A} (rows : list (list A)) : bool :=
  match rows with
  | [] => true
  | row :: rows' => forallb (fun r => (length r =? length row)%nat) rows'
  end.

(** [np.array(rows, dtype=np.float32)]: a new array, of Python floats cast
    to [float32]; rows of different lengths are refused. *)
Definition np_array_float32 (rows : list (list float)) : Act Service nat :=
  fun sv =>
    if rectangular rows then
      ({| sworld :=
            {| heap := heap (sworld sv)
                         ++ [NdArray float32
                               (map (map (astype_float32 float64)) rows)];
               disk := disk (sworld sv) |};
          _index := _index sv; ticks := ticks sv |},
       inr (length (heap (sworld sv))))
    else
      (sv, inl (ValueError "setting an array element with a sequence."))
  .

(** [if xs:] on an optional list. *)
Definition truthy {A} (xs : option (list A)) : bool :=
  match xs with
  | Some (_ :: _) => true
  | _ => false
  end.

(** [POST /search] *)
Definition search_endpoint (request : SearchRequest.t)
  : Act Service SearchResponse.t :=
  let* start := clock in
  get_index ;;;
  let* queries := np_array_float32 (SearchRequest.vectors request) in
  let* found :=
    if truthy (SearchRequest.filter_ids request) then
      on_index (search_with_filter queries (SearchRequest.k request)
                  (default [] (SearchRequest.filter_ids request)))
    else
      on_index (search queries (SearchRequest.k request)
                  (Some (SearchRequest.nprobe request))) in
  let* stop := clock in
  ret {| SearchResponse.distances := found.1;
         SearchResponse.indices := found.2;
         SearchResponse.latency_ms := elapsed_ms start stop |}.

(** [POST /add] *)
Definition add_endpoint (request : AddRequest.t)
  : Act Service AddResponse.t :=
  let* start := clock in
  get_index ;;;
  let* vectors := np_array_float32 (AddRequest.vectors request) in
  let ids := if truthy (AddRequest.ids request)
             then AddRequest.ids request else None in
  on_index (add vectors ids) ;;;
  let* stop := clock in
  ret {| AddResponse.count :=
           Z.of_nat (length (AddRequest.vectors request));
         AddResponse.latency_ms := elapsed_ms start stop |}.

(** [POST /train] *)
Definition train_endpoint (request : AddRequest.t)
  : Act Service TrainResponse.t :=
  let* start := clock in
  get_index ;;;
  let* vectors := np_array_float32 (AddRequest.vectors request) in
  on_index (train vectors) ;;;
  let* stop := clock in
  ret {| TrainResponse.status := "trained";
         TrainResponse.latency_ms := elapsed_ms start stop |}.

(** [GET /health] *)
Definition health_endpoint : Act Service HealthResponse.t :=
  get_index ;;;
  let* n := on_index __len__ in
  ret {| HealthResponse.status := "ok"; HealthResponse.vectors := n |}.

(** The requests a client sends, and the service answering them in turn;
    an exception ends the request, not the service. *)
Inductive request :=
| PostSearch (r : SearchRequest.t)
| PostAdd (r : AddRequest.t)
| PostTrain (r : AddRequest.t)
| GetHealth.

Definition serve (sv : Service) (rq : request) : Service * outcome :=
  match rq with
  | PostSearch r =>
    match search_endpoint r sv with (sv', x) => (sv', outcome_of x) end
  | PostAdd r =>
    match add_endpoint r sv with (sv', x) => (sv', outcome_of x) end
  | PostTrain r =>
    match train_endpoint r sv with (sv', x) => (sv', outcome_of x) end
  | GetHealth =>
    match health_endpoint sv with (sv', x) => (sv', outcome_of x) end
  end.

Definition serve_all (sv : Service) (rqs : list request) : Service :=
  fold_left (fun sv rq => (serve sv rq).1) rqs sv.

(** The number [/health] would report now. *)
Definition reported (sv : Service) : exn + Z :=
  match health_endpoint sv with
  | (_, inl e) => inl e
  | (_, inr h) => inr (HealthResponse.vectors h)
  end.

(** ** Notions used in the statements about the service *)

(** What the three [POST] handlers share: read the clock, get the index,
    build the array, call a method of the index on it, read the clock. *)
Definition handler {A B} (rows : list (list float))
    (method : nat -> Act Frame A) (response : float -> A -> float -> B)
  : Act Service B :=
  let* start := clock in
  get_index ;;;
  let* v := np_array_float32 rows in
  let* x := on_index (method v) in
  let* stop := clock in
  ret (response start x stop).

(** The index a request works on: the global one, or the one [get_index]
    builds for it. *)
Definition the_index (sv : Service) : exn + GPUVectorIndex :=
  match _index sv with
  | Some s => inr s
  | None => __init__ (default_config 768)
  end.

(** The world of a handler once [np.array] has built its array. *)
Definition with_array (rows : list (list float)) (w : World) : World :=
  {| heap := heap w
               ++ [NdArray float32 (map (map (astype_float32 float64)) rows)];
     disk := disk w |}.

(** A property of the global index, if there is one. *)
Definition index_has (I : GPUVectorIndex -> Prop) (sv : Service) : Prop :=
  match _index sv with
  | None => True
  | Some s => I s
  end.

(** The configuration and dimension of [self], and the files on the disk,
    are those before the call. *)
Definition same_settings (f f' : Frame) : Prop :=
  config (self f') = config (self f) /\
  self_dim (self f') = self_dim (self f) /\
  disk (world f') = disk (world f).



End Service.

(** ** A service to run *)
Module HostService.

(** A clock that advances by one at every reading. *)
Definition clock (available : bool) : @Clock (Host.platform available) :=
  @Build_Clock (Host.platform available) Z
    (fun t => (t + 1, Host.Num t))
    (fun start stop =>
       match start, stop with
       | Host.Num a, Host.Num b => Host.Num ((b - a) * 1000)
       | _, _ => Host.Inf
       end).

(** The process as it starts: no arrays, no files, no index. *)
Definition boot (available : bool)
  : @Service (Host.platform available) (clock available) :=
  @Build_Service (Host.platform available) (clock available)
    (@Build_World (Host.platform available) [] []) None 0.

(** Two vectors to train on and to add, and a query for them. *)
Definition batch (available : bool)
  : @AddRequest.t (Host.platform available) :=
  @AddRequest.Build_t (Host.platform available)
    [[Host.Num 2; Host.Num 4]; [Host.Num 3; Host.Num 9]] None.

Definition query (available : bool) (filter : option (list Z))
  : @SearchRequest.t (Host.platform available) :=
  @SearchRequest.Build_t (Host.platform available)
    [[Host.Num 2; Host.Num 0]] 2 7 filter.

End HostService.

(** * Properties *)

Lemma dtype_eqb_eq a b : dtype_eqb a b = true <-> a = b.
Proof. destruct a, b; simpl; split; congruence. Qed.

Section ActLemmas.
Context {P : Platform}.

Lemma bind_returns {S A B} (c : Act S A) (k : A -> Act S B) s s' b :
  bind c k s = (s', inr b) ->
  exists s1 a, c s = (s1, inr a) /\ k a s1 = (s', inr b).
Proof.
  unfold bind. destruct (c s) as [s1 [e|a]] eqn:E; intros H.
  - discriminate.
  - eauto.
Qed.

Lemma bind_step {S A B} (c : Act S A) (k : A -> Act S B) s s1 a :
  c s = (s1, inr a) -> bind c k s = k a s1.
Proof. unfold bind. intros ->. reflexivity. Qed.

Lemma bind_raises {S A B} (c : Act S A) (k : A -> Act S B) s s1 e :
  c s = (s1, inl e) -> bind c k s = (s1, inl e).
Proof. unfold bind. intros ->. reflexivity. Qed.

Lemma bind_assoc {S A B C} (c : Act S A) (k1 : A -> Act S B)
    (k2 : B -> Act S C) s :
  bind (bind c k1) k2 s = bind c (fun a => bind (k1 a) k2) s.
Proof. unfold bind. destruct (c s) as [s1 [e|a]]; reflexivity. Qed.

(** A property of the state that every turn of a loop keeps is kept by the
    loop, however it ends. *)
Lemma for_each_keeps {S A} (Inv : S -> Prop) (body : A -> Act S unit) :
  (forall x s s' r, Inv s -> body x s = (s', r) -> Inv s') ->
  forall l s s' r, Inv s -> for_each l body s = (s', r) -> Inv s'.
Proof.
  intros Hbody l. induction l as [|x l IH]; intros s s' r Hs Hrun.
  - inversion Hrun. subst. exact Hs.
  - simpl in Hrun. unfold bind in Hrun.
    destruct (body x s) as [s1 [e|[]]] eqn:E.
    + inversion Hrun. subst. eapply Hbody; eauto.
    + eapply IH; [|exact Hrun]. eapply Hbody; eauto.
Qed.

End ActLemmas.

(** ** numpy indexing *)
Section Indexing.
Context {P : Platform}.

Lemma index_row_lookup {A} (a : list (list A)) i row :
  index_row a i = inr row <-> a !! i = Some row.
Proof.
  unfold index_row. destruct (a !! i); split; intros H; congruence.
Qed.





Lemma np_full_inv {S A} n k (v : A) (s s' : S) a :
  np_full n k v s = (s', inr a) ->
  0 <= k /\ s' = s /\ a = replicate n (replicate (Z.to_nat k) v).
Proof.
  unfold np_full. destruct (k <? 0) eqn:E; intros H; [discriminate|].
  apply Z.ltb_ge in E. inversion H. auto.
Qed.

End Indexing.

(** ** The filter never lets a foreign id through *)
Section FilterSafety.
Context {P : Platform}.




End FilterSafety.

(** ** The filter loop computes the filter of the design *)
Section FilterRefinement.
Context {P : Platform}.

Lemma compress_survivors allowed (ds : list float) (ids : list Z) :
  length ds = length ids ->
  compress (map (fun id => bool_decide (id ∈ allowed)) ids) ds
    = (survivors allowed ds ids).*1 /\
  compress (map (fun id => bool_decide (id ∈ allowed)) ids) ids
    = (survivors allowed ds ids).*2.
Proof.
  unfold survivors. revert ids.
  induction ds as [|x ds IH]; intros [|id ids] Hlen; try discriminate.
  - split; reflexivity.
  - simpl in Hlen. injection Hlen as Hlen.
    destruct (IH ids Hlen) as [IH1 IH2]. simpl.
    destruct (decide (id ∈ allowed)) as [Hin|Hout].
    + rewrite bool_decide_eq_true_2 by assumption.
      rewrite filter_cons_True by assumption. simpl.
      split; f_equal; assumption.
    + rewrite bool_decide_eq_false_2 by assumption.
      rewrite filter_cons_False by assumption. split; assumption.
Qed.

Lemma slice_to_min {A} (l : list A) (len k : nat) :
  len = length l ->
  slice_to (Z.of_nat len `min` Z.of_nat k) l = take k l.
Proof.
  intros ->. unfold slice_to.
  destruct (_ <? 0) eqn:E; [apply Z.ltb_lt in E; lia|].
  replace (Z.to_nat (Z.of_nat (length l) `min` Z.of_nat k))
    with (length l `min` k)%nat by lia.
  rewrite <- take_take. apply take_ge. rewrite length_take. lia.
Qed.

(** Writing the first values of a row that still holds its initial value. *)
Lemma assign_row_prefix_fresh {A} (a : list (list A)) i (k : nat) (v : A)
    (vals : list A) (len : nat) :
  a !! i = Some (replicate k v) ->
  len = length vals ->
  assign_row_prefix a i (Z.of_nat len `min` Z.of_nat k)
      (slice_to (Z.of_nat len `min` Z.of_nat k) vals)
    = inr (<[i := take k vals
                  ++ replicate (k - length (take k vals))%nat v]> a).
Proof.
  intros Hrow Hlen. unfold assign_row_prefix. rewrite Hrow.
  rewrite (slice_to_min vals) by assumption.
  assert (length (slice_to (Z.of_nat len `min` Z.of_nat k) (replicate k v))
          = length (take k vals)) as ->.
  { unfold slice_to.
    destruct (_ <? 0) eqn:E; [apply Z.ltb_lt in E; lia|].
    rewrite !length_take, length_replicate. lia. }
  rewrite Nat.eqb_refl. by rewrite drop_replicate.
Qed.

Lemma filter_row_run allowed distances indices (k : nat) i st ds ids :
  distances !! i = Some ds ->
  indices !! i = Some ids ->
  length ds = length ids ->
  st.1 !! i = Some (replicate k np_inf) ->
  st.2 !! i = Some (replicate k (-1)) ->
  filter_row (np_isin indices allowed) distances indices (Z.of_nat k) i st
    = ((<[i := (filtered_row k allowed ds ids).*1]> st.1,
        <[i := (filtered_row k allowed ds ids).*2]> st.2), inr tt).
Proof.
  intros Hd Hi Hlen Hfd Hfi.
  destruct (compress_survivors allowed ds ids Hlen) as [Hc1 Hc2].
  unfold filter_row, bind, lift, gets, modify, index_row, np_isin.
  rewrite list_lookup_fmap, Hi, Hd. simpl.
  unfold bool_index. rewrite length_map, <- Hlen, !Nat.eqb_refl, Hc1, Hc2.
  simpl.
  rewrite (assign_row_prefix_fresh _ _ _ _ _ _ Hfd eq_refl). simpl.
  rewrite (assign_row_prefix_fresh st.2 i k (-1)
             (survivors allowed ds ids).*2 _ Hfi)
    by (by rewrite !length_fmap).
  unfold filtered_row.
  rewrite !fmap_app, !fmap_replicate, !fmap_take, !length_take, !length_fmap.
  reflexivity.
Qed.

Lemma written_lookup {A} a n k (v : A) rows :
  (a < n)%nat -> length rows = n ->
  written a n k v rows !! a = Some (replicate k v).
Proof.
  intros Ha Hn. unfold written.
  rewrite lookup_app_r by (rewrite length_take; lia).
  rewrite length_take, lookup_replicate. split; [reflexivity|lia].
Qed.

Lemma written_step {A} a n k (v : A) rows row :
  (a < n)%nat -> length rows = n -> rows !! a = Some row ->
  <[a := row]> (written a n k v rows) = written (S a) n k v rows.
Proof.
  intros Ha Hn Hrow. unfold written.
  rewrite insert_app_r_alt by (rewrite length_take; lia).
  rewrite length_take.
  replace (a - a `min` length rows)%nat with 0%nat by lia.
  replace (n - a)%nat with (S (n - S a)) by lia. simpl.
  rewrite (take_S_r _ _ _ Hrow), <- app_assoc. reflexivity.
Qed.

Lemma filter_loop_run allowed distances indices (k n : nat) :
  well_shaped n (distances, indices) ->
  let out := filter_spec k allowed (distances, indices) in
  forall c a, (a + c = n)%nat ->
    for_each (seq a c)
      (filter_row (np_isin indices allowed) distances indices (Z.of_nat k))
      (written a n k np_inf out.1, written a n k (-1) out.2)
    = ((written n n k np_inf out.1, written n n k (-1) out.2), inr tt).
Proof.
  intros (Hd & Hi & Hrows) out. simpl in Hd, Hi, Hrows.
  assert (length out.1 = n /\ length out.2 = n) as [Ho1 Ho2].
  { unfold out, filter_spec. simpl.
    rewrite !length_map, length_zip_with, Hd, Hi, Nat.min_id. done. }
  induction c as [|c IH]; intros a Hac.
  - replace a with n by lia. reflexivity.
  - simpl.
    destruct (lookup_lt_is_Some_2 distances a) as [ds Hds]; [lia|].
    destruct (lookup_lt_is_Some_2 indices a) as [ids Hids]; [lia|].
    assert (length ds = length ids) as Hlen.
    { eapply Forall2_lookup_lr in Hrows; eauto. }
    assert (out.1 !! a = Some (filtered_row k allowed ds ids).*1
            /\ out.2 !! a = Some (filtered_row k allowed ds ids).*2)
      as [Ha1 Ha2].
    { unfold out, filter_spec. simpl.
      rewrite !list_lookup_fmap, !lookup_zip_with, Hds, Hids.
      split; reflexivity. }
    erewrite bind_step; cycle 1.
    { apply (filter_row_run allowed distances indices k a _ ds ids);
        try assumption; simpl; apply written_lookup; (lia || assumption). }
    simpl. rewrite !written_step by (assumption || lia).
    apply IH. lia.
Qed.

Lemma written_all {A} n k (v : A) rows :
  length rows = n -> written n n k v rows = rows.
Proof.
  intros Hn. unfold written. rewrite Nat.sub_diag. simpl.
  rewrite app_nil_r. apply take_ge. lia.
Qed.

End FilterRefinement.

(** ** The store: conversion and normalisation *)
Section Store.
Context {P : Platform}.

Lemma deref_run v (f : Frame) a :
  heap (world f) !! v = Some a -> deref v f = (f, inr a).
Proof. unfold deref. intros ->. reflexivity. Qed.

Lemma deref_fails v (f : Frame) :
  heap (world f) !! v = None -> deref v f = (f, inl (NameError "array")).
Proof. unfold deref. intros ->. reflexivity. Qed.

Lemma prepared_lookup h v a :
  h !! v = Some a ->
  (prepared h v a).1 !! (prepared h v a).2 = Some (prepared_array a).
Proof.
  intros Hv. unfold prepared, prepared_array.
  destruct (dtype_eqb (arr_dtype a) float32); simpl.
  - apply list_lookup_insert_eq. by eapply lookup_lt_Some.
  - rewrite lookup_app_r by lia. by rewrite Nat.sub_diag.
Qed.

(** The first two steps of [train], [add] and [search] when FAISS is
    there. *)
Lemma prepare_run {A} v (f : Frame) a (k : nat -> Act Frame A) :
  heap (world f) !! v = Some a ->
  (let* v' := as_float32 v in faiss_normalize_L2 v' ;;; k v')%act f
    = k (prepared (heap (world f)) v a).2
        (set_heap (prepared (heap (world f)) v a).1 f).
Proof.
  intros Hv. unfold as_float32, prepared.
  rewrite bind_assoc, (bind_step _ _ _ _ _ (deref_run _ _ _ Hv)).
  destruct (dtype_eqb (arr_dtype a) float32); simpl.
  - unfold ret at 1, bind at 1. unfold faiss_normalize_L2.
    rewrite bind_assoc, (bind_step _ _ _ _ _ (deref_run _ _ _ Hv)).
    reflexivity.
  - unfold alloc at 1, bind at 1. unfold faiss_normalize_L2.
    rewrite bind_assoc. unfold bind at 1, deref, set_heap. simpl.
    rewrite lookup_app_r by lia. rewrite Nat.sub_diag. simpl.
    unfold bind, modify, set_heap. simpl.
    rewrite insert_app_r_alt by lia. rewrite Nat.sub_diag. reflexivity.
Qed.

Lemma prepare_fails {A} v (f : Frame) (k : nat -> Act Frame A) :
  heap (world f) !! v = None ->
  (let* v' := as_float32 v in faiss_normalize_L2 v' ;;; k v')%act f
    = (f, inl (NameError "array")).
Proof.
  intros Hv. unfold as_float32.
  rewrite bind_assoc. apply bind_raises, deref_fails, Hv.
Qed.



End Store.

(** ** What [search] does *)
Section Search.
Context {P : Platform}.

Lemma search_mock queries k np (f : Frame) a :
  FAISS_AVAILABLE = false ->
  heap (world f) !! queries = Some a ->
  search queries k np f =
    if k <? 0 then
      (f, inl (ValueError "negative dimensions are not allowed"))
    else
      (f, inr (replicate (shape0 a) (replicate (Z.to_nat k) np_zero),
               replicate (shape0 a) (replicate (Z.to_nat k) 0))).
Proof.
  intros Hoff Hq. unfold search. rewrite Hoff. simpl.
  rewrite (bind_step _ _ _ _ _ (deref_run _ _ _ Hq)).
  unfold np_full, bind. destruct (k <? 0); reflexivity.
Qed.

Lemma search_native queries k np (f : Frame) a :
  FAISS_AVAILABLE = true ->
  heap (world f) !! queries = Some a ->
  search queries k np f =
    (searched queries np f a,
     match attrs (self f) with
     | MockAttrs _ => inl (no_attribute "gpu_index")
     | NativeAttrs at_ =>
       match gpu_index at_ with
       | None =>
         inl (AttributeError "'NoneType' object has no attribute 'nprobe'")
       | Some g =>
         of_faiss (gpu_search (gpu_handle g)
                     (nprobe_or_default (config (self f)) np)
                     (arr_rows (prepared_array a)) k)
       end
     end).
Proof.
  intros Hon Hq. unfold search, searched. rewrite Hon. simpl.
  rewrite (prepare_run _ _ _ _ Hq).
  pose proof (prepared_lookup _ _ _ Hq) as Hp.
  unfold bind at 1, gets. simpl.
  unfold bind at 1, native_attrs. simpl.
  destruct (attrs (self f)) as [l|at_] eqn:Hat; [reflexivity|].
  destruct (gpu_index at_) as [g|] eqn:Hg; [|reflexivity].
  unfold update_native, bind, native_attrs, modify, deref, lift. simpl.
  rewrite Hat. simpl. rewrite Hp. reflexivity.
Qed.

Lemma search_unbound queries k np (f : Frame) :
  heap (world f) !! queries = None ->
  search queries k np f = (f, inl (NameError "array")).
Proof.
  intros Hq. unfold search. destruct FAISS_AVAILABLE; simpl.
  - apply prepare_fails, Hq.
  - apply bind_raises, deref_fails, Hq.
Qed.

Lemma searched_heap queries np (f : Frame) a :
  heap (world (searched queries np f a))
    = (prepared (heap (world f)) queries a).1.
Proof.
  unfold searched. destruct (attrs (self f)) as [|at_]; [reflexivity|].
  destruct (gpu_index at_); reflexivity.
Qed.


End Search.

(** ** The filtered search *)
Section FilteredSearch.
Context {P : Platform}.


End FilteredSearch.

(** ** What [train], [add], [save] and [load] do *)
Section Runs.
Context {P : Platform}.

Lemma native_attrs_run name (f : Frame) a :
  attrs (self f) = NativeAttrs a -> native_attrs name f = (f, inr a).
Proof. unfold native_attrs. intros ->. reflexivity. Qed.

Lemma native_attrs_fails name (f : Frame) l :
  attrs (self f) = MockAttrs l ->
  native_attrs name f = (f, inl (no_attribute name)).
Proof. unfold native_attrs. intros ->. reflexivity. Qed.

Lemma update_native_run name g (f : Frame) a :
  attrs (self f) = NativeAttrs a ->
  update_native name g f = (with_native (g a) f, inr tt).
Proof.
  intros Ha. unfold update_native.
  rewrite (bind_step _ _ _ _ _ (native_attrs_run _ _ _ Ha)). reflexivity.
Qed.

Lemma update_native_fails name g (f : Frame) l :
  attrs (self f) = MockAttrs l ->
  update_native name g f = (f, inl (no_attribute name)).
Proof.
  intros Ha. unfold update_native.
  by rewrite (bind_raises _ _ _ _ _ (native_attrs_fails _ _ _ Ha)).
Qed.

Lemma sync_to_gpu_mock (f : Frame) :
  FAISS_AVAILABLE = false -> _sync_to_gpu f = (f, inr tt).
Proof. intros Hoff. unfold _sync_to_gpu. rewrite Hoff. reflexivity. Qed.

Lemma sync_to_gpu_native (f : Frame) a :
  FAISS_AVAILABLE = true ->
  attrs (self f) = NativeAttrs a ->
  _sync_to_gpu f =
    match sync_attrs a with
    | inl e => (f, inl e)
    | inr a' => (with_native a' f, inr tt)
    end.
Proof.
  intros Hon Ha. unfold _sync_to_gpu, sync_attrs. rewrite Hon. simpl.
  rewrite (bind_step _ _ _ _ _ (native_attrs_run _ _ _ Ha)).
  destruct (gpu_resources a) as [|res rs] eqn:Hres.
  - unfold ret, with_native, set_self, set_attrs. rewrite <- Ha.
    by destruct f as [w []].
  - destruct (index_cpu_to_gpu_multiple_py _ _ _ _) as [e|g] eqn:Hg.
    + reflexivity.
    + unfold bind at 1, lift, of_faiss. by apply update_native_run.
Qed.

Lemma train_mock vectors (f : Frame) :
  FAISS_AVAILABLE = false -> train vectors f = (now_trained f, inr tt).
Proof. intros Hoff. unfold train. rewrite Hoff. reflexivity. Qed.

Lemma train_native vectors (f : Frame) a at_ :
  FAISS_AVAILABLE = true ->
  heap (world f) !! vectors = Some a ->
  attrs (self f) = NativeAttrs at_ ->
  train vectors f =
    let f1 := set_heap (prepared (heap (world f)) vectors a).1 f in
    match index_train (cpu_index at_) (arr_rows (prepared_array a)) with
    | inl e => (f1, inl (FaissError e))
    | inr c =>
      match sync_attrs (set_cpu_index c at_) with
      | inl e => (with_native (set_cpu_index c at_) f1, inl e)
      | inr a' => (now_trained (with_native a' f1), inr tt)
      end
    end.
Proof.
  intros Hon Hv Ha. unfold train. rewrite Hon. simpl.
  rewrite (prepare_run _ _ _ _ Hv).
  pose proof (prepared_lookup _ _ _ Hv) as Hp.
  set (f1 := set_heap _ f). set (v' := (prepared _ _ _).2) in *.
  assert (attrs (self f1) = NativeAttrs at_) as Ha1 by exact Ha.
  rewrite (bind_step _ _ _ _ _ (native_attrs_run _ _ _ Ha1)).
  rewrite (bind_step _ _ _ _ _ (deref_run v' f1 _ Hp)).
  destruct (index_train _ _) as [e|c] eqn:Ht.
  - reflexivity.
  - unfold bind at 1, lift, of_faiss.
    rewrite (bind_step _ _ _ _ _ (update_native_run _ _ _ _ Ha1)).
    unfold bind at 1.
    rewrite (sync_to_gpu_native (with_native (set_cpu_index c at_) f1)
               (set_cpu_index c at_) Hon eq_refl).
    destruct (sync_attrs _) as [e|a']; reflexivity.
Qed.

Lemma add_untrained vectors ids (f : Frame) :
  is_trained (self f) = false ->
  add vectors ids f = (f, inl UntrainedIndexError).
Proof. intros Hu. unfold add, bind, gets. rewrite Hu. reflexivity. Qed.

Lemma add_mock vectors ids (f : Frame) a l :
  is_trained (self f) = true ->
  FAISS_AVAILABLE = false ->
  attrs (self f) = MockAttrs l ->
  heap (world f) !! vectors = Some a ->
  add vectors ids f =
    (set_self (set_attrs (MockAttrs (l ++ arr_rows a)) (self f)) f, inr tt).
Proof.
  intros Ht Hoff Ha Hv. unfold add. unfold bind at 1, gets.
  rewrite Ht, Hoff. simpl.
  unfold bind at 1, mock_vectors. rewrite Ha.
  rewrite (bind_step _ _ _ _ _ (deref_run _ _ _ Hv)). reflexivity.
Qed.

Lemma add_native vectors ids (f : Frame) a at_ :
  is_trained (self f) = true ->
  FAISS_AVAILABLE = true ->
  heap (world f) !! vectors = Some a ->
  attrs (self f) = NativeAttrs at_ ->
  add vectors ids f =
    let f1 := set_heap (prepared (heap (world f)) vectors a).1 f in
    match
      match ids with
      | Some ids =>
        index_add_with_ids (cpu_index at_) (arr_rows (prepared_array a)) ids
      | None => index_add (cpu_index at_) (arr_rows (prepared_array a))
      end
    with
    | inl e => (f1, inl (FaissError e))
    | inr c =>
      match sync_attrs (set_cpu_index c at_) with
      | inl e => (with_native (set_cpu_index c at_) f1, inl e)
      | inr a' => (with_native a' f1, inr tt)
      end
    end.
Proof.
  intros Ht Hon Hv Ha. unfold add. unfold bind at 1, gets.
  rewrite Ht, Hon. simpl.
  rewrite (prepare_run _ _ _ _ Hv).
  pose proof (prepared_lookup _ _ _ Hv) as Hp.
  set (f1 := set_heap _ f). set (v' := (prepared _ _ _).2) in *.
  assert (attrs (self f1) = NativeAttrs at_) as Ha1 by exact Ha.
  rewrite (bind_step _ _ _ _ _ (native_attrs_run _ _ _ Ha1)).
  rewrite (bind_step _ _ _ _ _ (deref_run v' f1 _ Hp)).
  match goal with
  | |- context [lift (of_faiss ?r)] => destruct r as [e|c] eqn:Hadd
  end.
  - reflexivity.
  - unfold bind at 1, lift, of_faiss.
    rewrite (bind_step _ _ _ _ _ (update_native_run _ _ _ _ Ha1)).
    rewrite (sync_to_gpu_native (with_native (set_cpu_index c at_) f1)
               (set_cpu_index c at_) Hon eq_refl).
    destruct (sync_attrs _) as [e|a']; reflexivity.
Qed.

Lemma save_mock path (f : Frame) :
  FAISS_AVAILABLE = false -> save path f = (f, inr tt).
Proof. intros Hoff. unfold save. rewrite Hoff. reflexivity. Qed.

Lemma save_native path (f : Frame) at_ :
  FAISS_AVAILABLE = true ->
  attrs (self f) = NativeAttrs at_ ->
  save path f =
    match write_index (cpu_index at_) path (disk (world f)) with
    | inl e => (f, inl (FaissError e))
    | inr d => (set_disk d f, inr tt)
    end.
Proof.
  intros Hon Ha. unfold save. rewrite Hon.
  rewrite (bind_step _ _ _ _ _ (native_attrs_run _ _ _ Ha)).
  unfold bind at 1, gets.
  destruct (write_index _ _ _) as [e|d]; reflexivity.
Qed.

Lemma load_run path config (w : World) :
  load path config w =
    match __init__ config with
    | inl e => (w, inl e)
    | inr index =>
      if FAISS_AVAILABLE then
        match read_index path (disk w) with
        | inl e => (w, inl (FaissError e))
        | inr c =>
          match attrs index with
          | MockAttrs _ => (w, inl (no_attribute "cpu_index"))
          | NativeAttrs at_ =>
            match sync_attrs (set_cpu_index c at_) with
            | inl e => (w, inl e)
            | inr a' =>
              (w, inr (set_is_trained true (set_attrs (NativeAttrs a') index)))
            end
          end
        end
      else (w, inr index)
    end.
Proof.
  unfold load. unfold bind at 1, lift.
  destruct (__init__ config) as [e|index]; [reflexivity|].
  destruct FAISS_AVAILABLE eqn:Hon; [|reflexivity].
  unfold on_new_object. unfold bind at 1, gets. simpl.
  destruct (read_index path (disk w)) as [e|c]; [reflexivity|].
  unfold bind at 1, lift, of_faiss.
  destruct (attrs index) as [l|at_] eqn:Ha.
  - rewrite (bind_raises _ _ _ _ _
               (update_native_fails "cpu_index" (set_cpu_index c)
                  {| world := w; self := index |} l Ha)).
    reflexivity.
  - set (f0 := {| world := w; self := index |}).
    assert (attrs (self f0) = NativeAttrs at_) as Ha0 by exact Ha.
    rewrite (bind_step _ _ _ _ _ (update_native_run _ _ _ _ Ha0)).
    unfold bind at 1.
    rewrite (sync_to_gpu_native (with_native (set_cpu_index c at_) f0)
               (set_cpu_index c at_) Hon eq_refl).
    destruct (sync_attrs _) as [e|a']; reflexivity.
Qed.

Lemma add_unbound vectors ids (f : Frame) :
  is_trained (self f) = true ->
  (FAISS_AVAILABLE = false -> exists l, attrs (self f) = MockAttrs l) ->
  heap (world f) !! vectors = None ->
  add vectors ids f = (f, inl (NameError "array")).
Proof.
  intros Ht Hm Hv. unfold add. unfold bind at 1, gets. rewrite Ht. simpl.
  destruct FAISS_AVAILABLE; simpl.
  - by apply prepare_fails.
  - destruct Hm as [l Hl]; [reflexivity|].
    unfold bind at 1, mock_vectors. rewrite Hl.
    by apply bind_raises, deref_fails.
Qed.

Lemma train_unbound vectors (f : Frame) :
  FAISS_AVAILABLE = true ->
  heap (world f) !! vectors = None ->
  train vectors f = (f, inl (NameError "array")).
Proof.
  intros Hon Hv. unfold train. rewrite Hon. simpl.
  by apply prepare_fails.
Qed.

Lemma train_no_attrs vectors (f : Frame) a l :
  FAISS_AVAILABLE = true ->
  heap (world f) !! vectors = Some a ->
  attrs (self f) = MockAttrs l ->
  train vectors f =
    (set_heap (prepared (heap (world f)) vectors a).1 f,
     inl (no_attribute "cpu_index")).
Proof.
  intros Hon Hv Ha. unfold train. rewrite Hon. simpl.
  rewrite (prepare_run _ _ _ _ Hv).
  apply bind_raises. by eapply native_attrs_fails.
Qed.

End Runs.

(** ** What a call can change, and what it can raise *)
Section Frames.
Context {P : Platform}.

Lemma keeps_bind {S A B} (R : S -> S -> Prop) `{!Transitive R}
    (c : Act S A) (k : A -> Act S B) :
  keeps R c -> (forall a, keeps R (k a)) -> keeps R (bind c k).
Proof.
  intros Hc Hk s s' r. unfold bind.
  destruct (c s) as [s1 [e|a]] eqn:E; intros H.
  - inversion H. subst. eapply Hc, E.
  - etransitivity; [eapply Hc, E|eapply Hk, H].
Qed.

Lemma keeps_pure {S A} (R : S -> S -> Prop) `{!Reflexive R} (r : exn + A) :
  keeps R (lift r).
Proof. intros s s' r' [= <- <-]. reflexivity. Qed.

Lemma keeps_ret {S A} (R : S -> S -> Prop) `{!Reflexive R} (a : A) :
  keeps R (ret a).
Proof. apply (keeps_pure R (inr a)). Qed.

Lemma keeps_raise {S A} (R : S -> S -> Prop) `{!Reflexive R} e :
  keeps R (@raise _ S A e).
Proof. apply (keeps_pure R (inl e)). Qed.

Lemma keeps_gets {S A} (R : S -> S -> Prop) `{!Reflexive R} (g : S -> A) :
  keeps R (gets g).
Proof. intros s s' r' [= <- <-]. reflexivity. Qed.

Lemma keeps_modify {S} (R : S -> S -> Prop) (g : S -> S) :
  (forall s, R s (g s)) -> keeps R (modify g).
Proof. intros Hg s s' r' [= <- <-]. apply Hg. Qed.

Lemma keeps_np_full {S A} (R : S -> S -> Prop) `{!Reflexive R} n k (v : A) :
  keeps R (np_full n k v).
Proof.
  unfold np_full. destruct (k <? 0); [apply keeps_raise|apply keeps_ret];
    assumption.
Qed.

Lemma keeps_with_locals {S L} (R : S -> S -> Prop) `{!Reflexive R}
    (c : Act L unit) (l : L) :
  keeps R (with_locals c l).
Proof.
  intros s s' r. unfold with_locals.
  destruct (c l) as [l' [e|[]]]; intros [= <- <-]; reflexivity.
Qed.

Lemma keeps_deref (R : Frame -> Frame -> Prop) `{!Reflexive R} v :
  keeps R (deref v).
Proof.
  intros f f' r. unfold deref.
  destruct (_ !! _); intros [= <- <-]; reflexivity.
Qed.

Lemma keeps_native_attrs (R : Frame -> Frame -> Prop) `{!Reflexive R} name :
  keeps R (native_attrs name).
Proof.
  intros f f' r. unfold native_attrs.
  destruct (attrs _); intros [= <- <-]; reflexivity.
Qed.

Lemma keeps_mock_vectors (R : Frame -> Frame -> Prop) `{!Reflexive R} :
  keeps R mock_vectors.
Proof.
  intros f f' r. unfold mock_vectors.
  destruct (attrs _); intros [= <- <-]; reflexivity.
Qed.

#[local] Instance same_trained_refl : Reflexive same_trained.
Proof. by intros f. Qed.

#[local] Instance same_trained_trans : Transitive same_trained.
Proof. unfold same_trained. intros f1 f2 f3 H1 H2. congruence. Qed.

#[local] Instance same_self_refl : Reflexive same_self.
Proof. by intros f. Qed.

#[local] Instance same_self_trans : Transitive same_self.
Proof. unfold same_self. intros f1 f2 f3 H1 H2. congruence. Qed.

#[local] Instance same_frame_refl : Reflexive same_frame.
Proof. by intros f. Qed.

#[local] Instance same_frame_trans : Transitive same_frame.
Proof. unfold same_frame. intros f1 f2 f3 H1 H2. congruence. Qed.

Lemma same_self_trained f f' : same_self f f' -> same_trained f f'.
Proof. unfold same_self, same_trained. by intros ->. Qed.

Lemma keeps_weaken {S A} (R R' : S -> S -> Prop) (c : Act S A) :
  (forall s s', R s s' -> R' s s') -> keeps R c -> keeps R' c.
Proof. intros HR Hc s s' r H. eapply HR, Hc, H. Qed.

(** Preparing the arrays leaves [self] alone. *)
Lemma as_float32_self v : keeps same_self (as_float32 v).
Proof.
  unfold as_float32. apply keeps_bind; [apply _|by apply keeps_deref|].
  intros a. destruct (negb _); [|by apply keeps_ret].
  by intros f f' r [= <- <-].
Qed.

Lemma faiss_normalize_L2_self v : keeps same_self (faiss_normalize_L2 v).
Proof.
  unfold faiss_normalize_L2.
  apply keeps_bind; [apply _|by apply keeps_deref|].
  intros a. by apply keeps_modify.
Qed.

Lemma update_native_trained name g : keeps same_trained (update_native name g).
Proof.
  unfold update_native.
  apply keeps_bind; [apply _|by apply keeps_native_attrs|].
  intros a. by apply keeps_modify.
Qed.

Lemma sync_to_gpu_trained : keeps same_trained _sync_to_gpu.
Proof.
  unfold _sync_to_gpu. destruct (negb _); [by apply keeps_ret|].
  apply keeps_bind; [apply _|by apply keeps_native_attrs|].
  intros a. destruct (gpu_resources a); [by apply keeps_ret|].
  apply keeps_bind; [apply _|by apply keeps_pure|].
  intros h. apply update_native_trained.
Qed.

End Frames.

(** ** The trained flag *)
Section Trained.
Context {P : Platform}.

#[local] Existing Instances same_trained_refl same_trained_trans.

Ltac keeps_trained :=
  repeat first
    [ apply update_native_trained
    | apply sync_to_gpu_trained
    | apply (keeps_weaken same_self);
      [apply same_self_trained
      |apply as_float32_self || apply faiss_normalize_L2_self]
    | apply keeps_bind; [apply _| |intros ?]
    | apply keeps_ret; apply _
    | apply keeps_raise; apply _
    | apply keeps_pure; apply _
    | apply keeps_gets; apply _
    | apply keeps_np_full; apply _
    | apply keeps_with_locals; apply _
    | apply keeps_deref; apply _
    | apply keeps_native_attrs; apply _
    | apply keeps_mock_vectors; apply _
    | apply keeps_modify; intros ?; reflexivity
    | match goal with
      | |- keeps _ (if ?b then _ else _) => destruct b
      | |- keeps _ (match ?x with _ => _ end) => destruct x
      end ].

Lemma add_trained vectors ids : keeps same_trained (add vectors ids).
Proof. unfold add. keeps_trained. Qed.

Lemma search_trained queries k np : keeps same_trained (search queries k np).
Proof. unfold search. keeps_trained. Qed.

Lemma search_with_filter_trained queries k filter_ids :
  keeps same_trained (search_with_filter queries k filter_ids).
Proof.
  unfold search_with_filter.
  apply keeps_bind; [apply _|apply search_trained|intros ?].
  keeps_trained.
Qed.

Lemma save_trained path : keeps same_trained (save path).
Proof. unfold save. keeps_trained. Qed.

(** [train] sets the flag as its last step: it either returns with the
    flag set, or leaves the flag as it was. *)
Lemma train_trained vectors (f f' : Frame) r :
  train vectors f = (f', r) ->
  (r = inr tt /\ is_trained (self f') = true) \/
  ((exists e, r = inl e) /\ is_trained (self f') = is_trained (self f)).
Proof.
  intros Hrun. destruct FAISS_AVAILABLE eqn:Hav.
  - destruct (heap (world f) !! vectors) as [a|] eqn:Hv.
    + destruct (attrs (self f)) as [l|at_] eqn:Ha.
      * rewrite (train_no_attrs _ _ _ _ Hav Hv Ha) in Hrun.
        inversion Hrun. right. eauto.
      * rewrite (train_native _ _ _ _ Hav Hv Ha) in Hrun. simpl in Hrun.
        destruct (index_train _ _); [inversion Hrun; right; eauto|].
        destruct (sync_attrs _); inversion Hrun; [right|left]; eauto.
    + rewrite (train_unbound _ _ Hav Hv) in Hrun.
      inversion Hrun. right. eauto.
  - rewrite (train_mock _ _ Hav) in Hrun. inversion Hrun. left. eauto.
Qed.

End Trained.

(** ** Building an index *)
Section Construction.
Context {P : Platform}.

Lemma new_gpu_resources_run (l : list nat) rs rs' :
  for_each l (fun _ => new_gpu_resource) rs = (rs', inr tt) ->
  rs' = rs ++ match StandardGpuResources with
              | inl _ => []
              | inr res =>
                replicate (length l) (setTempMemory res (1024 * 1024 * 1024))
              end.
Proof.
  revert rs. induction l as [|x l IH]; intros rs Hrun.
  - inversion Hrun. destruct StandardGpuResources; by rewrite app_nil_r.
  - simpl in Hrun. unfold bind at 1, new_gpu_resource at 1 in Hrun.
    unfold bind at 1, lift, of_faiss, modify in Hrun.
    destruct StandardGpuResources as [e|res] eqn:Hres; [discriminate|].
    apply IH in Hrun. rewrite Hrun, <- app_assoc. reflexivity.
Qed.

Lemma init_mock config :
  FAISS_AVAILABLE = false ->
  __init__ config =
    inr {| config := config; self_dim := dim config; is_trained := false;
           attrs := MockAttrs [] |}.
Proof. intros Hoff. unfold __init__. rewrite Hoff. reflexivity. Qed.

Lemma init_native config s :
  FAISS_AVAILABLE = true ->
  __init__ config = inr s ->
  exists c,
    s = {| config := config; self_dim := dim config; is_trained := false;
           attrs := NativeAttrs
             {| gpu_resources := resources_of config; cpu_index := c;
                co := {| shard := true;
                         useFloat16 := use_float16 config |};
                gpu_index := None |} |}.
Proof.
  intros Hon. unfold __init__, for_range. rewrite Hon. simpl.
  destruct (for_each _ _ _) as [rs [e|[]]] eqn:Hloop; [discriminate|].
  apply new_gpu_resources_run in Hloop. rewrite length_seq in Hloop.
  simpl in Hloop. fold (resources_of config) in Hloop. subst rs.
  destruct (of_faiss (IndexFlatL2 _)) as [e|q]; [discriminate|].
  destruct (of_faiss (IndexIVFPQ _ _ _ _ _)) as [e|c]; [discriminate|].
  intros [= <-]. by exists c.
Qed.

Lemma init_untrained config s : __init__ config = inr s -> is_trained s = false.
Proof.
  intros Hinit. destruct FAISS_AVAILABLE eqn:Hav.
  - by destruct (init_native _ _ Hav Hinit) as [c ->].
  - rewrite (init_mock _ Hav) in Hinit. by inversion Hinit.
Qed.

Lemma load_world path config w w' r :
  load path config w = (w', r) -> w' = w.
Proof.
  rewrite load_run. intros H.
  repeat case_match; by inversion H.
Qed.

Lemma load_trained path config w w' s :
  load path config w = (w', inr s) -> is_trained s = FAISS_AVAILABLE.
Proof.
  rewrite load_run.
  destruct (__init__ config) as [e|index] eqn:Hinit; [discriminate|].
  destruct FAISS_AVAILABLE eqn:Hav.
  - intros H. repeat case_match; by inversion H.
  - intros [= <- <-]. by apply init_untrained in Hinit.
Qed.

End Construction.

(** ** Trained stays trained *)
Section StateMachine.
Context {P : Platform}.

Lemma construct_keeps c (p : Program) o s :
  objects p !! o = Some s -> objects (construct c p).1 !! o = Some s.
Proof.
  intros Ho. unfold construct.
  destruct (c (pworld p)) as [w [e|s']]; simpl; [exact Ho|].
  by apply lookup_app_l_Some.
Qed.

Lemma construct_new c (p : Program) s :
  objects (construct c p).1 !! length (objects p) = Some s ->
  exists w, c (pworld p) = (w, inr s).
Proof.
  unfold construct. destruct (c (pworld p)) as [w [e|s']]; simpl.
  - intros H. apply lookup_lt_Some in H. lia.
  - rewrite lookup_app_r by lia. rewrite Nat.sub_diag.
    intros [= <-]. eauto.
Qed.

Lemma invoke_other {A} (c : Act Frame A) (p : Program) o o' s :
  o <> o' -> objects p !! o = Some s ->
  objects (invoke o' c p).1 !! o = Some s.
Proof.
  intros Hne Ho. unfold invoke.
  destruct (objects p !! o') as [s'|]; [|exact Ho].
  destruct (c _) as [f r]. simpl. by rewrite list_lookup_insert_ne.
Qed.

Lemma invoke_same {A} (c : Act Frame A) (p : Program) o s :
  objects p !! o = Some s ->
  exists f r,
    c {| world := pworld p; self := s |} = (f, r) /\
    objects (invoke o c p).1 !! o = Some (self f) /\
    (invoke o c p).2 = outcome_of r.
Proof.
  intros Ho. unfold invoke. rewrite Ho.
  destruct (c _) as [f r]. exists f, r. simpl. repeat split.
  apply list_lookup_insert_eq. by eapply lookup_lt_Some.
Qed.

Lemma invoke_length {A} (c : Act Frame A) (p : Program) o :
  length (objects (invoke o c p).1) = length (objects p).
Proof.
  unfold invoke. destruct (objects p !! o); [|reflexivity].
  destruct (c _) as [f r]. simpl. apply length_insert.
Qed.

(** A method that keeps the trained flag keeps it on every object. *)
Lemma invoke_keeps {A} (c : Act Frame A) (p : Program) o' o s :
  keeps same_trained c ->
  objects p !! o = Some s ->
  exists s', objects (invoke o' c p).1 !! o = Some s' /\
             is_trained s' = is_trained s.
Proof.
  intros Hc Ho. destruct (decide (o = o')) as [<-|Hne].
  - destruct (invoke_same c p o s Ho) as (f & r & Hrun & Hlook & _).
    exists (self f). split; [exact Hlook|]. by apply Hc in Hrun.
  - exists s. split; [by apply invoke_other|reflexivity].
Qed.

(** One call: an object changes its flag only by becoming trained in a
    [train] call of its own that returns. *)
Lemma step_trained (p : Program) c o s :
  objects p !! o = Some s ->
  exists s', objects (step p c).1 !! o = Some s' /\
    (is_trained s' = is_trained s \/
     (is_trained s' = true /\
      exists vectors, c = CallTrain o vectors /\ (step p c).2 = Returned)).
Proof.
  intros Ho. destruct c as [cfg|path cfg|o' v|o' v ids|o' q k np|o' q k fi|o' path];
    simpl.
  - exists s. split; [by apply construct_keeps|by left].
  - exists s. split; [by apply construct_keeps|by left].
  - destruct (decide (o = o')) as [<-|Hne].
    + destruct (invoke_same (train v) p o s Ho) as (f & r & Hrun & Hl & Hout).
      exists (self f). split; [exact Hl|].
      apply train_trained in Hrun as [[-> Ht]|[_ Heq]]; [right|by left].
      split; [exact Ht|]. exists v. split; [reflexivity|exact Hout].
    + exists s. split; [by apply invoke_other|by left].
  - destruct (invoke_keeps (add v ids) p o' o s (add_trained _ _) Ho)
      as (s' & Hl & Heq). eauto.
  - destruct (invoke_keeps (search q k np) p o' o s (search_trained _ _ _) Ho)
      as (s' & Hl & Heq). eauto.
  - destruct (invoke_keeps (search_with_filter q k fi) p o' o s
                (search_with_filter_trained _ _ _) Ho)
      as (s' & Hl & Heq). eauto.
  - destruct (invoke_keeps (save path) p o' o s (save_trained _) Ho)
      as (s' & Hl & Heq). eauto.
Qed.

(** C9: an index is untrained when [__init__] builds it; it becomes trained
    only in a [train] call of its own that returns, or is built trained by
    [load]; and once trained it stays trained through every sequence of
    [__init__], [load], [train], [add], [search], [search_with_filter] and
    [save] calls, on it or on other indexes, whether they return or
    raise. *)
Theorem trained_is_permanent (p : Program) o s :
  objects p !! o = Some s ->
  (is_trained s = true ->
   forall cs, exists s',
     objects (run p cs) !! o = Some s' /\ is_trained s' = true) /\
  (is_trained s = false ->
   forall c s',
     objects (step p c).1 !! o = Some s' -> is_trained s' = true ->
     exists vectors, c = CallTrain o vectors /\ (step p c).2 = Returned) /\
  (forall c s',
     objects (step p c).1 !! length (objects p) = Some s' ->
     (exists config, c = CallInit config /\ is_trained s' = false) \/
     (exists path config,
        c = CallLoad path config /\ is_trained s' = FAISS_AVAILABLE)).
Proof.
  intros Ho. split; [|split].
  - intros Ht cs. revert p s Ho Ht.
    induction cs as [|c cs IH]; intros p s Ho Ht.
    + exists s. by split.
    + simpl. destruct (step_trained p c o s Ho) as (s1 & Hl & Hs1).
      apply (IH _ s1 Hl). destruct Hs1 as [->|[-> _]]; done.
  - intros Hu c s' Hl Ht.
    destruct (step_trained p c o s Ho) as (s1 & Hl1 & Hs1).
    rewrite Hl in Hl1. injection Hl1 as <-.
    destruct Hs1 as [Heq|[_ Hv]]; [congruence|exact Hv].
  - intros c s' Hl.
    destruct c as [cfg|path cfg|o' v|o' v ids|o' q k np|o' q k fi|o' path];
      simpl in Hl;
      try (apply lookup_lt_Some in Hl; rewrite invoke_length in Hl; lia).
    + left. exists cfg. split; [reflexivity|].
      apply construct_new in Hl as [w Hw]. unfold lift in Hw.
      injection Hw as _ Hinit. by apply init_untrained in Hinit.
    + right. exists path, cfg. split; [reflexivity|].
      apply construct_new in Hl as [w Hw]. by apply load_trained in Hw.
Qed.

End StateMachine.

(** ** The device copy follows the host index *)
Section Consistency.
Context {P : Platform}.

Lemma sync_attrs_current a a' :
  sync_attrs a = inr a' ->
  (gpu_resources a = [] -> gpu_index a = None) ->
  gpu_resources a' = gpu_resources a /\ co a' = co a /\
  cpu_index a' = cpu_index a /\
  (gpu_resources a' = [] -> gpu_index a' = None) /\
  device_current a'.
Proof.
  unfold sync_attrs, device_current.
  destruct (gpu_resources a) as [|res rs] eqn:Hres.
  - intros [= <-] Hnone. rewrite Hres. repeat split; auto.
  - destruct (index_cpu_to_gpu_multiple_py _ _ _ _) as [e|g] eqn:Hg;
      [discriminate|].
    intros [= <-] _. simpl. rewrite Hres. repeat split; [discriminate|].
    intros g' Hg'. rewrite Hg in Hg'. injection Hg' as <-. eauto.
Qed.

Lemma sync_attrs_stale a e a' :
  sync_attrs a = inl e ->
  gpu_resources a' = gpu_resources a -> cpu_index a' = cpu_index a ->
  co a' = co a ->
  device_current a'.
Proof.
  unfold sync_attrs, device_current. intros Hs -> -> ->.
  destruct (gpu_resources a) as [|res rs]; [discriminate|].
  destruct (index_cpu_to_gpu_multiple_py _ _ _ _) as [e'|g]; [|discriminate].
  intros g Hg. discriminate.
Qed.

Lemma sync_attrs_fails_nonempty a e :
  sync_attrs a = inl e -> gpu_resources a <> [].
Proof.
  unfold sync_attrs. destruct (gpu_resources a); [discriminate|]. done.
Qed.

Lemma init_consistent config s : __init__ config = inr s -> consistent s.
Proof.
  intros Hinit. destruct FAISS_AVAILABLE eqn:Hav.
  - destruct (init_native _ _ Hav Hinit) as [c ->].
    unfold consistent. simpl. by repeat split.
  - rewrite (init_mock _ Hav) in Hinit. injection Hinit as <-. exact Hav.
Qed.

Lemma load_consistent path config w w' s :
  load path config w = (w', inr s) -> consistent s.
Proof.
  rewrite load_run.
  destruct (__init__ config) as [e|index] eqn:Hinit; [discriminate|].
  destruct FAISS_AVAILABLE eqn:Hav;
    [|intros [= <- <-]; by eapply init_consistent].
  destruct (init_native _ _ Hav Hinit) as [c0 ->]. simpl.
  destruct (read_index _ _) as [e|c]; [discriminate|].
  destruct (sync_attrs _) as [e|a'] eqn:Hs; [discriminate|].
  intros [= <- <-].
  apply sync_attrs_current in Hs as (Hr & Hco & _ & Hnone & Hcur);
    [|intros _; reflexivity].
  simpl in Hr, Hco. unfold consistent. simpl. by repeat split.
Qed.

(** A frame whose [self] has other FAISS attributes is consistent when the
    attributes are. *)
Lemma train_consistent vectors (f f' : Frame) r :
  consistent (self f) -> train vectors f = (f', r) -> consistent (self f').
Proof.
  intros Hc Hrun. unfold consistent in Hc.
  destruct (attrs (self f)) as [l|at_] eqn:Ha.
  - rewrite (train_mock _ _ Hc) in Hrun. injection Hrun as <- _.
    unfold consistent. simpl. by rewrite Ha.
  - destruct Hc as (Hon & Hr & Hco & Hnone & Hcur).
    destruct (heap (world f) !! vectors) as [a|] eqn:Hv.
    + rewrite (train_native _ _ _ _ Hon Hv Ha) in Hrun. simpl in Hrun.
      destruct (index_train _ _) as [e|c].
      * injection Hrun as <- _. unfold consistent. simpl. by rewrite Ha.
      * destruct (sync_attrs _) as [e|a'] eqn:Hs; injection Hrun as <- _.
        -- unfold consistent. simpl. repeat split; try assumption.
           intros _. by eapply sync_attrs_stale.
        -- apply sync_attrs_current in Hs as (Hr' & Hco' & _ & Hn' & Hcur');
             [|exact Hnone].
           unfold consistent. simpl. simpl in Hr', Hco'.
           repeat split; [exact Hon|congruence|congruence|exact Hn'|].
           intros _. exact Hcur'.
    + rewrite (train_unbound _ _ Hon Hv) in Hrun. injection Hrun as <- _.
      unfold consistent. rewrite Ha. by repeat split.
Qed.

Lemma add_consistent vectors ids (f f' : Frame) r :
  consistent (self f) -> add vectors ids f = (f', r) -> consistent (self f').
Proof.
  intros Hc Hrun.
  destruct (is_trained (self f)) eqn:Ht;
    [|rewrite (add_untrained _ _ _ Ht) in Hrun; by injection Hrun as <- _].
  destruct (heap (world f) !! vectors) as [a|] eqn:Hv; cycle 1.
  { rewrite add_unbound in Hrun; [by injection Hrun as <- _|done| |done].
    intros Hoff. unfold consistent in Hc.
    destruct (attrs (self f)) as [l|at_]; [eauto|].
    destruct Hc as [Hon _]. congruence. }
  unfold consistent in Hc.
  destruct (attrs (self f)) as [l|at_] eqn:Ha.
  - rewrite (add_mock _ _ _ _ _ Ht Hc Ha Hv) in Hrun. injection Hrun as <- _.
    exact Hc.
  - destruct Hc as (Hon & Hr & Hco & Hnone & Hcur).
    rewrite (add_native _ _ _ _ _ Ht Hon Hv Ha) in Hrun. simpl in Hrun.
    match type of Hrun with
    | match ?x with _ => _ end = _ => destruct x as [e|c]
    end.
    + injection Hrun as <- _. unfold consistent. simpl. by rewrite Ha.
    + destruct (sync_attrs _) as [e|a'] eqn:Hs; injection Hrun as <- _.
      * unfold consistent. simpl. repeat split; try assumption.
        intros _. by eapply sync_attrs_stale.
      * apply sync_attrs_current in Hs as (Hr' & Hco' & _ & Hn' & Hcur');
          [|exact Hnone].
        unfold consistent. simpl. simpl in Hr', Hco'.
        repeat split; [exact Hon|congruence|congruence|exact Hn'|].
        intros _. exact Hcur'.
Qed.

Lemma search_consistent queries k np (f f' : Frame) r :
  consistent (self f) -> search queries k np f = (f', r) ->
  consistent (self f').
Proof.
  intros Hc Hrun.
  destruct (heap (world f) !! queries) as [a|] eqn:Hq;
    [|rewrite (search_unbound _ _ _ _ Hq) in Hrun; by injection Hrun as <- _].
  unfold consistent in Hc.
  destruct (attrs (self f)) as [l|at_] eqn:Ha.
  - rewrite (search_mock _ _ _ _ _ Hc Hq) in Hrun.
    destruct (k <? 0); injection Hrun as <- _; unfold consistent;
      by rewrite Ha.
  - destruct Hc as (Hon & Hr & Hco & Hnone & Hcur).
    rewrite (search_native _ _ _ _ _ Hon Hq) in Hrun. injection Hrun as <- _.
    unfold searched. rewrite Ha.
    destruct (gpu_index at_) as [g|] eqn:Hg.
    + unfold consistent. simpl. repeat split; try assumption.
      * intros Hnil. apply Hnone in Hnil. congruence.
      * intros Htr. specialize (Hcur Htr). unfold device_current in *.
        simpl. destruct (gpu_resources at_); [congruence|].
        intros g' Hg'. destruct (Hcur g' Hg') as [np0 Hnp0].
        rewrite Hg in Hnp0. injection Hnp0 as ->. simpl. eauto.
    + unfold consistent. simpl. rewrite Ha. by repeat split.
Qed.

#[local] Existing Instances same_frame_refl same_frame_trans
  same_self_refl same_self_trans.

(** After the unfiltered search, the filter works on local arrays only. *)
Lemma search_with_filter_frame queries k filter_ids (f f' : Frame) r :
  search_with_filter queries k filter_ids f = (f', r) ->
  exists r0, search queries (k * 10) None f = (f', r0).
Proof.
  unfold search_with_filter. unfold bind at 1.
  destruct (search queries (k * 10) None f) as [f1 [e|found]] eqn:Hs.
  - intros [= <- _]. eauto.
  - intros Hrest. exists (inr found). f_equal.
    assert (same_frame f1 f') as ->; [|reflexivity].
    revert Hrest. generalize f1 f' r.
    change (keeps same_frame
      (bind (deref queries) (fun q =>
         bind (np_full (shape0 q) k np_inf) (fun filtered_distances =>
           bind (np_full (shape0 q) k (-1)) (fun filtered_indices =>
             with_locals
               (for_range (shape0 q)
                  (filter_row (np_isin found.2 filter_ids) found.1 found.2 k))
               (filtered_distances, filtered_indices)))))).
    apply keeps_bind; [apply _|by apply keeps_deref|intros q].
    apply keeps_bind; [apply _|by apply keeps_np_full|intros fd].
    apply keeps_bind; [apply _|by apply keeps_np_full|intros fi].
    by apply keeps_with_locals.
Qed.

Lemma search_with_filter_consistent queries k filter_ids (f f' : Frame) r :
  consistent (self f) ->
  search_with_filter queries k filter_ids f = (f', r) ->
  consistent (self f').
Proof.
  intros Hc Hrun. apply search_with_filter_frame in Hrun as [r0 Hs].
  by eapply search_consistent.
Qed.

Lemma save_self path : keeps same_self (save path).
Proof.
  unfold save. destruct FAISS_AVAILABLE; [|by apply keeps_ret].
  apply keeps_bind; [apply _|by apply keeps_native_attrs|intros a].
  apply keeps_bind; [apply _|by apply keeps_gets|intros d].
  apply keeps_bind; [apply _|by apply keeps_pure|intros d'].
  by apply keeps_modify.
Qed.

Lemma reachable_consistent s : reachable s -> consistent s.
Proof.
  induction 1 as [config s Hinit|path config w w' s Hload
                 |s v w f r _ IH Hrun|s v ids w f r _ IH Hrun
                 |s q k np w f r _ IH Hrun|s q k fi w f r _ IH Hrun
                 |s path w f r _ IH Hrun].
  - by eapply init_consistent.
  - by eapply load_consistent.
  - by eapply train_consistent; [|exact Hrun].
  - by eapply add_consistent; [|exact Hrun].
  - by eapply search_consistent; [|exact Hrun].
  - by eapply search_with_filter_consistent; [|exact Hrun].
  - apply save_self in Hrun. unfold same_self in Hrun. simpl in Hrun.
    by rewrite Hrun.
Qed.

End Consistency.

(** ** Saving and loading *)
Section Persistence.
Context {P : Platform}.


End Persistence.

(** ** Which exceptions a call raises *)
Section Raises.
Context {P : Platform}.

Lemma raises_only_bind {S A B} (Q : exn -> Prop) (c : Act S A)
    (k : A -> Act S B) :
  raises_only Q c -> (forall a, raises_only Q (k a)) ->
  raises_only Q (bind c k).
Proof.
  intros Hc Hk s s' e. unfold bind.
  destruct (c s) as [s1 [e1|a]] eqn:E; intros H.
  - injection H as <- <-. eapply Hc, E.
  - eapply Hk, H.
Qed.

Lemma raises_only_never {S A} (Q : exn -> Prop) (c : Act S A) :
  (forall s, exists s' a, c s = (s', inr a)) -> raises_only Q c.
Proof. intros Hc s s' e H. destruct (Hc s) as (s1 & a & E). congruence. Qed.

Lemma raises_only_ret {S A} (Q : exn -> Prop) (a : A) :
  raises_only Q (@ret _ S A a).
Proof. apply raises_only_never. intros s. by exists s, a. Qed.

Lemma raises_only_gets {S A} (Q : exn -> Prop) (g : S -> A) :
  raises_only Q (gets g).
Proof. apply raises_only_never. intros s. by exists s, (g s). Qed.

Lemma raises_only_modify {S} (Q : exn -> Prop) (g : S -> S) :
  raises_only Q (modify g).
Proof. apply raises_only_never. intros s. by exists (g s), tt. Qed.

Lemma raises_only_raise {S A} (Q : exn -> Prop) e :
  Q e -> raises_only Q (@raise _ S A e).
Proof. intros He s s' e' [= <- <-]. exact He. Qed.

Lemma raises_only_faiss {S A} (Q : exn -> Prop) (r : faiss_error + A) :
  (forall e, Q (FaissError e)) -> raises_only Q (@lift _ S A (of_faiss r)).
Proof.
  intros He s s' e. unfold lift, of_faiss.
  destruct r; intros [= <- <-]. apply He.
Qed.

Lemma raises_only_deref (Q : exn -> Prop) v :
  Q (NameError "array") -> raises_only Q (deref v).
Proof.
  intros He f f' e. unfold deref.
  destruct (_ !! _); intros [= <- <-]. exact He.
Qed.

Lemma raises_only_native_attrs (Q : exn -> Prop) name :
  Q (no_attribute name) -> raises_only Q (native_attrs name).
Proof.
  intros He f f' e. unfold native_attrs.
  destruct (attrs _); intros [= <- <-]. exact He.
Qed.

Lemma raises_only_mock_vectors (Q : exn -> Prop) :
  Q (no_attribute "_mock_vectors") -> raises_only Q mock_vectors.
Proof.
  intros He f f' e. unfold mock_vectors.
  destruct (attrs _); intros [= <- <-]. exact He.
Qed.

Ltac no_state_error :=
  repeat first
    [ apply raises_only_bind; [|intros ?]
    | apply raises_only_ret
    | apply raises_only_gets
    | apply raises_only_modify
    | apply raises_only_faiss; intros ?; discriminate
    | apply raises_only_deref; discriminate
    | apply raises_only_native_attrs; discriminate
    | apply raises_only_mock_vectors; discriminate
    | apply raises_only_raise; discriminate
    | match goal with
      | |- raises_only _ (if ?b then _ else _) => destruct b
      | |- raises_only _ (match ?x with _ => _ end) => destruct x
      end ].

Lemma sync_to_gpu_no_state_error : raises_only not_state_error _sync_to_gpu.
Proof. unfold _sync_to_gpu, update_native, not_state_error. no_state_error. Qed.

(** Once the flag is set, [add] does not raise the error of an untrained
    index. *)
Lemma add_trained_no_state_error vectors ids (f f' : Frame) r :
  is_trained (self f) = true ->
  add vectors ids f = (f', r) ->
  r <> inl UntrainedIndexError.
Proof.
  intros Ht Hrun Hr. subst r. revert Hrun.
  unfold add. unfold bind at 1, gets. rewrite Ht. simpl.
  assert (forall c : Act Frame unit,
            raises_only not_state_error c ->
            c f = (f', inl UntrainedIndexError) -> False) as Hno.
  { intros c Hc Hrun. by apply Hc in Hrun. }
  apply Hno.
  unfold as_float32, faiss_normalize_L2, update_native, alloc.
  destruct (negb FAISS_AVAILABLE).
  - unfold not_state_error. no_state_error.
  - apply raises_only_bind.
    { unfold not_state_error. no_state_error.
      apply raises_only_never. intros s. eauto. }
    intros v. apply raises_only_bind; [unfold not_state_error; no_state_error|].
    intros []. apply raises_only_bind;
      [unfold not_state_error; no_state_error|intros a].
    apply raises_only_bind; [unfold not_state_error; no_state_error|intros x].
    apply raises_only_bind; [unfold not_state_error; no_state_error|intros c].
    apply raises_only_bind; [unfold not_state_error; no_state_error|intros []].
    apply sync_to_gpu_no_state_error.
Qed.

(** [search] never raises it either, trained or not. *)
Lemma search_no_state_error queries k np :
  raises_only not_state_error (search queries k np).
Proof.
  unfold search, np_full, as_float32, faiss_normalize_L2, update_native.
  unfold not_state_error. no_state_error.
  apply raises_only_never. intros s. unfold alloc. eauto.
Qed.

End Raises.

(** ** The state checks of [train], [add] and [search] *)
Section StateChecks.
Context {P : Platform}.


(** C4: on an index that is not trained, [add] raises the error of an
    untrained index and changes nothing, for every batch; on a trained
    index, and so after a [train] that returned, whatever [add] raises is
    not that error. *)
Theorem add_state_check vectors ids (f f' : Frame) r :
  add vectors ids f = (f', r) ->
  (is_trained (self f) = false ->
   f' = f /\ r = inl UntrainedIndexError) /\
  (is_trained (self f) = true -> r <> inl UntrainedIndexError) /\
  (forall sample f0 f1,
     train sample f0 = (f1, inr tt) -> self f = self f1 ->
     r <> inl UntrainedIndexError).
Proof.
  intros Hrun. split; [|split].
  - intros Hu. rewrite (add_untrained _ _ _ Hu) in Hrun.
    by injection Hrun as <- <-.
  - intros Ht. by eapply add_trained_no_state_error.
  - intros sample f0 f1 Htrain Hself.
    eapply add_trained_no_state_error; [|exact Hrun].
    rewrite Hself.
    by apply train_trained in Htrain as [[_ ?]|[[e ?] _]].
Qed.

(** C5, at an index that was never trained: without FAISS [search] returns
    arrays of zeros, and with FAISS it raises the [AttributeError] of the
    missing device copy; in neither case the error of an untrained
    index. *)
Theorem search_untrained_runs :
  is_trained (self (Host.fresh_frame false Host.small)) = false /\
  (search 1 1 None (Host.fresh_frame false Host.small)).2
    = inr ([[Host.Num 0]], [[0]]) /\
  is_trained (self (Host.fresh_frame true Host.small)) = false /\
  (search 1 1 None (Host.fresh_frame true Host.small)).2
    = inl (AttributeError "'NoneType' object has no attribute 'nprobe'").
Proof. repeat split. Qed.

End StateChecks.

(** ** [load], [search] on an empty index, and the caller's arrays *)
Section Design.
Context {P : Platform}.

(** C6, as the code has it: [load] does not compare what it reads with the
    configuration it is given.  It never changes the world, whether it
    returns or raises; with FAISS, when the file is read and the device
    copy is made, it returns a trained index that holds the index read from
    the file under the caller's configuration, whatever that index's
    dimension or number of subquantizers; without FAISS it returns what
    [__init__] returns. *)
Theorem load_takes_any_index path config (w w' : World) r :
  load path config w = (w', r) ->
  w' = w /\
  (FAISS_AVAILABLE = true ->
   forall index at_ c a',
     __init__ config = inr index ->
     attrs index = NativeAttrs at_ ->
     read_index path (disk w) = inr c ->
     sync_attrs (set_cpu_index c at_) = inr a' ->
     r = inr (set_is_trained true (set_attrs (NativeAttrs a') index))) /\
  (FAISS_AVAILABLE = false -> r = __init__ config).
Proof.
  intros Hrun. split; [by eapply load_world|]. rewrite load_run in Hrun.
  split.
  - intros Hon index at_ c a' Hinit Ha Hread Hsync.
    rewrite Hinit, Hon, Hread, Ha, Hsync in Hrun. by injection Hrun as _ <-.
  - intros Hoff. rewrite Hoff in Hrun.
    destruct (__init__ config); by injection Hrun as _ <-.
Qed.


Lemma add_no_attrs vectors ids (f : Frame) a l :
  is_trained (self f) = true ->
  FAISS_AVAILABLE = true ->
  heap (world f) !! vectors = Some a ->
  attrs (self f) = MockAttrs l ->
  add vectors ids f =
    (set_heap (prepared (heap (world f)) vectors a).1 f,
     inl (no_attribute "cpu_index")).
Proof.
  intros Ht Hon Hv Ha. unfold add. unfold bind at 1, gets.
  rewrite Ht, Hon. simpl. rewrite (prepare_run _ _ _ _ Hv).
  apply bind_raises. by eapply native_attrs_fails.
Qed.

Lemma train_heap vectors (f : Frame) a :
  FAISS_AVAILABLE = true ->
  heap (world f) !! vectors = Some a ->
  heap (world (train vectors f).1) = (prepared (heap (world f)) vectors a).1.
Proof.
  intros Hon Hv. destruct (attrs (self f)) as [l|at_] eqn:Ha.
  - by rewrite (train_no_attrs _ _ _ _ Hon Hv Ha).
  - rewrite (train_native _ _ _ _ Hon Hv Ha). simpl.
    destruct (index_train _ _); [reflexivity|].
    destruct (sync_attrs _); reflexivity.
Qed.

Lemma add_heap vectors ids (f : Frame) a :
  is_trained (self f) = true ->
  FAISS_AVAILABLE = true ->
  heap (world f) !! vectors = Some a ->
  heap (world (add vectors ids f).1)
    = (prepared (heap (world f)) vectors a).1.
Proof.
  intros Ht Hon Hv. destruct (attrs (self f)) as [l|at_] eqn:Ha.
  - by rewrite (add_no_attrs _ _ _ _ _ Ht Hon Hv Ha).
  - rewrite (add_native _ _ _ _ _ Ht Hon Hv Ha). simpl.
    match goal with
    | |- context [match ?x with inl _ => _ | inr _ => _ end] =>
      destruct x; [reflexivity|]
    end.
    destruct (sync_attrs _); reflexivity.
Qed.

Lemma add_mock_heap vectors ids (f : Frame) :
  FAISS_AVAILABLE = false \/ is_trained (self f) = false ->
  heap (world (add vectors ids f).1) = heap (world f).
Proof.
  destruct (is_trained (self f)) eqn:Ht;
    [|intros _; by rewrite (add_untrained _ _ _ Ht)].
  intros [Hoff|?]; [|discriminate].
  destruct (add vectors ids f) as [f' r] eqn:Hrun. simpl.
  revert Hrun. generalize f f' r. change (keeps same_heap (add vectors ids)).
  assert (Reflexive same_heap) by (by intros ?).
  assert (Transitive same_heap)
    by (unfold same_heap; intros ? ? ? ? ?; congruence).
  unfold add. rewrite Hoff. simpl.
  apply keeps_bind; [apply _|by apply keeps_gets|intros t].
  destruct (negb t); [by apply keeps_raise|].
  apply keeps_bind; [apply _|by apply keeps_mock_vectors|intros l].
  apply keeps_bind; [apply _|by apply keeps_deref|intros v].
  by apply keeps_modify.
Qed.

Lemma search_mock_heap queries k np (f : Frame) :
  FAISS_AVAILABLE = false ->
  heap (world (search queries k np f).1) = heap (world f).
Proof.
  intros Hoff. destruct (heap (world f) !! queries) as [a|] eqn:Hq.
  - rewrite (search_mock _ _ _ _ _ Hoff Hq). by destruct (k <? 0).
  - by rewrite (search_unbound _ _ _ _ Hq).
Qed.

(** C10, as the code has it: when FAISS is there, [train] and [search],
    and [add] on a trained index, normalise the rows of a [float32] array
    in the caller's own array and allocate nothing, whether they then
    return or raise; an array of another element type is left as it was
    and a normalised [float32] copy is made of it.  When FAISS is not
    there, and in [add] on an index that is not trained, no array is
    touched. *)
Theorem arrays_normalized_in_place vectors (f : Frame) a k np ids :
  heap (world f) !! vectors = Some a ->
  let before := heap (world f) in
  let after := if dtype_eqb (arr_dtype a) float32
               then <[vectors := normalized a]> before
               else before ++ [normalized (astype_f32 a)] in
  (FAISS_AVAILABLE = true ->
   heap (world (train vectors f).1) = after /\
   heap (world (search vectors k np f).1) = after /\
   (is_trained (self f) = true ->
    heap (world (add vectors ids f).1) = after)) /\
  (arr_dtype a = float32 ->
   after !! vectors = Some (normalized a) /\ length after = length before) /\
  (arr_dtype a <> float32 ->
   after !! vectors = Some a /\
   after !! length before = Some (normalized (astype_f32 a))) /\
  (FAISS_AVAILABLE = false ->
   heap (world (train vectors f).1) = before /\
   heap (world (search vectors k np f).1) = before /\
   heap (world (add vectors ids f).1) = before) /\
  (is_trained (self f) = false ->
   heap (world (add vectors ids f).1) = before).
Proof.
  intros Hv before after.
  assert (after = (prepared before vectors a).1) as Hafter.
  { unfold after, prepared. by destruct (dtype_eqb _ _). }
  split; [|split; [|split; [|split]]].
  - intros Hon. rewrite Hafter. repeat split.
    + by apply train_heap.
    + rewrite (search_native _ _ _ _ _ Hon Hv). simpl. apply searched_heap.
    + intros Ht. by apply add_heap.
  - intros Hd. unfold after. apply dtype_eqb_eq in Hd as ->. simpl.
    split; [|apply length_insert].
    apply list_lookup_insert_eq. by eapply lookup_lt_Some.
  - intros Hd. unfold after.
    destruct (dtype_eqb _ _) eqn:E; [by apply dtype_eqb_eq in E|].
    split; [by apply lookup_app_l_Some|].
    rewrite lookup_app_r by lia. by rewrite Nat.sub_diag.
  - intros Hoff. repeat split.
    + by rewrite (train_mock _ _ Hoff).
    + by apply search_mock_heap.
    + apply add_mock_heap. by left.
  - intros Hu. apply add_mock_heap. by right.
Qed.

End Design.

(** ** The host platform meets what the theorems ask of FAISS *)
Module HostFacts.
Import Host.





End HostFacts.

(** ** Where the design and the code part *)


(** C6 fails: an index of dimension 128 is saved, and [load] with a
    configuration of dimension 64 returns a trained index that holds it. *)
Lemma load_mismatch_counterexample :
  let saved := save "index.faiss"
                 (Host.fresh_frame true (default_config 128)) in
  let loaded := load "index.faiss" (default_config 64) (world saved.1) in
  saved.2 = inr tt /\
  (exists c, Host.read "index.faiss" (disk (world saved.1)) = inr c /\
             Host.d c = 128) /\
  dim (default_config 64) = 64 /\
  ~ (exists e, loaded.2 = inl e) /\
  (exists s, loaded.2 = inr s /\ is_trained s = true /\
             self_dim s = 64 /\
             (exists a, attrs s = NativeAttrs a /\
                        Host.d (cpu_index a) = 128)).
Proof.
  split; [reflexivity|].
  split; [eexists; split; reflexivity|]. split; [reflexivity|].
  split.
  - intros [e He]. discriminate He.
  - eexists. split; [reflexivity|].
    split; [reflexivity|]. split; [reflexivity|].
    eexists. split; reflexivity.
Qed.


(** C10 fails without FAISS: [train] leaves a [float32] array that is not
    normalised as it was. *)
Lemma train_leaves_array_counterexample :
  let f := Host.fresh_frame false Host.small in
  let a := Host.array false float32 [[2; 4; 0; 0]; [0; 0; 3; 9]] in
  heap (world f) !! 0%nat = Some a /\
  arr_dtype a = float32 /\
  normalized a <> a /\
  heap (world (train 0 f).1) !! 0%nat = Some a /\
  heap (world (train 0 f).1) !! 0%nat <> Some (normalized a).
Proof.
  split; [reflexivity|]. split; [reflexivity|]. split; [discriminate|].
  split; [reflexivity|discriminate].
Qed.

(** ** The theorems at the example inputs *)




Lemma trained_is_permanent_witness :
  let p := run (Host.one_index true) [CallTrain 0 0] in
  let cs := [CallAdd 0 0 None; CallSearch 0 1 1 None;
             CallSave 0 "index.faiss"; CallLoad "index.faiss" Host.small;
             CallTrain 0 1; CallSearchWithFilter 0 1 1 [0]] in
  objects p !! 0%nat = Some (self (Host.trained_frame true)) /\
  is_trained (self (Host.trained_frame true)) = true /\
  exists s', objects (run p cs) !! 0%nat = Some s' /\ is_trained s' = true.
Proof.
  intros p cs. split; [reflexivity|]. split; [reflexivity|].
  exact (proj1 (trained_is_permanent (P := Host.platform true) p 0
                  (self (Host.trained_frame true)) eq_refl) eq_refl cs).
Defined.


Lemma add_state_check_witness :
  let f := Host.fresh_frame true Host.small in
  add 0 None f = (f, inl UntrainedIndexError) /\
  is_trained (self f) = false /\
  f = f /\
  (inl UntrainedIndexError : @exn (Host.platform true) + unit)
    = inl UntrainedIndexError.
Proof.
  intros f. split; [reflexivity|]. split; [reflexivity|].
  exact (proj1 (add_state_check (P := Host.platform true) 0 None f f
                  (inl UntrainedIndexError) eq_refl) eq_refl).
Defined.

Lemma load_takes_any_index_witness :
  let w := world (save "index.faiss"
                    (Host.fresh_frame true (default_config 128))).1 in
  let loaded := load "index.faiss" (default_config 64) w in
  loaded = (loaded.1, loaded.2) /\ loaded.1 = w.
Proof.
  intros w loaded. split; [reflexivity|].
  exact (proj1 (load_takes_any_index (P := Host.platform true) "index.faiss"
                  (default_config 64) w loaded.1 loaded.2 eq_refl)).
Defined.


Lemma arrays_normalized_in_place_witness :
  let f := Host.trained_frame true in
  let a := Host.array true float32 [[2; 0; 0; 0]] in
  heap (world f) !! 1%nat = Some a /\
  @FAISS_AVAILABLE (Host.platform true) = true /\
  heap (world (search 1 3 None f).1)
    = <[1%nat := normalized a]> (heap (world f)) /\
  heap (world (search 1 3 None f).1) !! 1%nat
    = Some (Host.array true float32 [[1; 0; 0; 0]]).
Proof.
  intros f a. split; [reflexivity|]. split; [reflexivity|].
  split; [|reflexivity].
  exact (proj1 (proj2 (proj1 (arrays_normalized_in_place
                                (P := Host.platform true)
                                1 f a 3 None None eq_refl) eq_refl))).
Defined.

(** * More of [GPUVectorIndex]: shapes, edges and effects *)

(** ** The shape of the filtered arrays *)
Section FilterShape.
Context {P : Platform}.

Lemma slice_to_length_le {A} n (l : list A) :
  (length (slice_to n l) <= length l)%nat.
Proof.
  unfold slice_to. destruct (n <? 0); rewrite length_take; lia.
Qed.

Lemma assign_row_prefix_shape {A} (a a' : list (list A)) i n vals w :
  Forall (fun row => length row = w) a ->
  assign_row_prefix a i n vals = inr a' ->
  length a' = length a /\ Forall (fun row => length row = w) a'.
Proof.
  intros Ha. unfold assign_row_prefix.
  destruct (a !! i) as [row|] eqn:Hrow; [|discriminate].
  assert (length row = w) as Hw by (eapply Forall_lookup_1 in Ha; eauto).
  pose proof (slice_to_length_le n row) as Hle.
  destruct (_ =? _)%nat eqn:E.
  - apply Nat.eqb_eq in E. intros [= <-]. rewrite length_insert.
    split; [reflexivity|]. apply Forall_insert; [assumption|].
    rewrite length_app, length_drop. lia.
  - destruct vals as [|x [|? ?]]; try discriminate.
    intros [= <-]. rewrite length_insert.
    split; [reflexivity|]. apply Forall_insert; [assumption|].
    rewrite length_app, length_replicate, length_drop. lia.
Qed.

Lemma filter_row_shape mask distances indices k i (st st' : Filtered) r n w :
  (length st.1 = n /\ Forall (fun row => length row = w) st.1) /\
  (length st.2 = n /\ Forall (fun row => length row = w) st.2) ->
  filter_row mask distances indices k i st = (st', r) ->
  (length st'.1 = n /\ Forall (fun row => length row = w) st'.1) /\
  (length st'.2 = n /\ Forall (fun row => length row = w) st'.2).
Proof.
  intros [[Hn1 Hw1] [Hn2 Hw2]] Hrun.
  unfold filter_row, bind, lift, gets, modify in Hrun. simpl in Hrun.
  repeat case_match; simplify_eq; simpl; try (by repeat split);
    repeat match goal with
    | H : assign_row_prefix _ _ _ _ = inr _ |- _ =>
      eapply assign_row_prefix_shape in H as [? ?]; [|eassumption]
    end;
    repeat split; congruence.
Qed.

(** X1: whenever [search_with_filter] returns, it returns two arrays of shape
    [(queries.shape[0], k)], whatever shape the arrays of the unfiltered
    search had. *)
Theorem search_with_filter_shape queries k filter_ids (f f' : Frame)
    distances ids :
  search_with_filter queries k filter_ids f = (f', inr (distances, ids)) ->
  exists a,
    heap (world f') !! queries = Some a /\ 0 <= k /\
    length distances = shape0 a /\ length ids = shape0 a /\
    Forall (fun row => Z.of_nat (length row) = k) distances /\
    Forall (fun row => Z.of_nat (length row) = k) ids.
Proof.
  intros Hrun. unfold search_with_filter in Hrun.
  apply bind_returns in Hrun as (f1 & found & _ & Hrun).
  apply bind_returns in Hrun as (f2 & q & Hq & Hrun).
  apply bind_returns in Hrun as (f3 & fd & Hfd & Hrun).
  apply bind_returns in Hrun as (f4 & fi & Hfi & Hrun).
  apply np_full_inv in Hfd as (Hk & -> & ->).
  apply np_full_inv in Hfi as (_ & -> & ->).
  unfold deref in Hq.
  destruct (heap (world f1) !! queries) as [a|] eqn:Ha; [|discriminate].
  injection Hq as <- <-.
  unfold with_locals in Hrun.
  destruct (for_range _ _ _) as [st [e|[]]] eqn:Hloop; [discriminate|].
  injection Hrun as <- ->. exists a. split; [exact Ha|]. split; [exact Hk|].
  unfold for_range in Hloop.
  eapply (for_each_keeps
            (fun st : Filtered =>
               (length st.1 = shape0 a /\
                Forall (fun row => length row = Z.to_nat k) st.1) /\
               (length st.2 = shape0 a /\
                Forall (fun row => length row = Z.to_nat k) st.2)))
    in Hloop.
  - destruct Hloop as [[H1 H2] [H3 H4]].
    repeat split; try assumption;
      (eapply Forall_impl; [eassumption|]); simpl; intros row Hrow; lia.
  - intros x s s' r. apply filter_row_shape.
  - simpl. rewrite !length_replicate.
    repeat split; apply Forall_replicate, length_replicate.
Qed.

(** X2: with a negative [k], [search_with_filter] never returns. *)
Theorem search_with_filter_negative_k queries k filter_ids (f : Frame) :
  k < 0 ->
  exists e, (search_with_filter queries k filter_ids f).2 = inl e.
Proof.
  intros Hk. unfold search_with_filter. unfold bind at 1.
  destruct (search queries (k * 10) None f) as [f1 [e|found]]; [by eexists|].
  unfold bind at 1, deref.
  destruct (heap (world f1) !! queries) as [a|]; [|by eexists].
  unfold bind at 1, np_full at 1.
  apply Z.ltb_lt in Hk. rewrite Hk. by eexists.
Qed.

End FilterShape.

(** ** What the filter lets through *)
Section FilterContents.
Context {P : Platform}.

#[local] Existing Instances same_frame_refl same_frame_trans.

Lemma compress_none {A} (mask : list bool) (row : list A) :
  Forall (fun b => b = false) mask -> compress mask row = [].
Proof.
  revert row. induction mask as [|b mask IH]; intros row Hm; [done|].
  destruct row as [|x row]; [done|]. simpl.
  inversion Hm as [|? ? -> Hm']. by apply IH.
Qed.

Lemma assign_row_prefix_nothing {A} (a a' : list (list A)) i :
  assign_row_prefix a i 0 [] = inr a' -> a' = a.
Proof.
  unfold assign_row_prefix.
  destruct (a !! i) as [row|] eqn:Hrow; [|discriminate].
  unfold slice_to. simpl.
  intros [= <-]. rewrite drop_0. by apply list_insert_id.
Qed.

(** With no id allowed, a turn of the loop changes nothing. *)
Lemma filter_row_nothing distances indices k i (st st' : Filtered) r :
  0 <= k ->
  filter_row (np_isin indices []) distances indices k i st = (st', r) ->
  st' = st.
Proof.
  intros Hk Hrun.
  unfold filter_row in Hrun. unfold bind at 1, lift in Hrun.
  destruct (index_row (np_isin indices []) i) as [e|mask] eqn:Hmask;
    [by injection Hrun as <- _|].
  assert (Forall (fun b => b = false) mask) as Hfalse.
  { apply index_row_lookup in Hmask. unfold np_isin in Hmask.
    rewrite list_lookup_fmap in Hmask.
    destruct (indices !! i) as [row|]; [|discriminate].
    injection Hmask as <-. apply Forall_fmap, Forall_true.
    intros id. simpl.
    first [reflexivity|apply bool_decide_eq_false_2, not_elem_of_nil]. }
  unfold bind at 1 in Hrun.
  destruct (index_row distances i) as [e|row_d];
    [by injection Hrun as <- _|].
  unfold bind at 1, bool_index at 1 in Hrun.
  destruct (_ =? _)%nat; [|by injection Hrun as <- _].
  rewrite (compress_none _ _ Hfalse) in Hrun.
  unfold bind at 1 in Hrun.
  destruct (index_row indices i) as [e|row_i];
    [by injection Hrun as <- _|].
  unfold bind at 1, bool_index at 1 in Hrun.
  destruct (_ =? _)%nat; [|by injection Hrun as <- _].
  rewrite (compress_none _ _ Hfalse) in Hrun.
  unfold bind, gets, modify in Hrun. simpl in Hrun.
  replace (Z.of_nat 0 `min` k) with 0 in Hrun by lia.
  unfold slice_to in Hrun. simpl in Hrun.
  destruct (assign_row_prefix st.1 i 0 []) as [e|fd] eqn:Hfd;
    [by injection Hrun as <- _|].
  apply assign_row_prefix_nothing in Hfd as ->.
  destruct (assign_row_prefix st.2 i 0 []) as [e|fi] eqn:Hfi.
  - injection Hrun as <- _. by destruct st.
  - apply assign_row_prefix_nothing in Hfi as ->.
    injection Hrun as <- _. by destruct st.
Qed.

(** X3: with an empty array of allowed ids, [search_with_filter] returns, if it
    returns, [(+inf, -1)] in every slot. *)
Theorem search_with_filter_nothing_allowed queries k (f f' : Frame)
    distances ids :
  search_with_filter queries k [] f = (f', inr (distances, ids)) ->
  exists a,
    heap (world f') !! queries = Some a /\
    distances = replicate (shape0 a) (replicate (Z.to_nat k) np_inf) /\
    ids = replicate (shape0 a) (replicate (Z.to_nat k) (-1)).
Proof.
  intros Hrun. unfold search_with_filter in Hrun.
  apply bind_returns in Hrun as (f1 & found & _ & Hrun).
  apply bind_returns in Hrun as (f2 & q & Hq & Hrun).
  apply bind_returns in Hrun as (f3 & fd & Hfd & Hrun).
  apply bind_returns in Hrun as (f4 & fi & Hfi & Hrun).
  apply np_full_inv in Hfd as (Hk & -> & ->).
  apply np_full_inv in Hfi as (_ & -> & ->).
  unfold deref in Hq.
  destruct (heap (world f1) !! queries) as [a|] eqn:Ha; [|discriminate].
  injection Hq as <- <-.
  unfold with_locals in Hrun.
  destruct (for_range _ _ _) as [st [e|[]]] eqn:Hloop; [discriminate|].
  injection Hrun as <- ->. exists a. split; [exact Ha|].
  unfold for_range in Hloop.
  eapply (for_each_keeps
            (fun st : Filtered =>
               st = (replicate (shape0 a) (replicate (Z.to_nat k) np_inf),
                     replicate (shape0 a) (replicate (Z.to_nat k) (-1)))))
    in Hloop.
  - by injection Hloop as -> ->.
  - intros x s s' r -> Hturn. by eapply filter_row_nothing.
  - reflexivity.
Qed.

(** X4: [search_with_filter] leaves the caller's arrays, the disk and the index
    as [search] with [k * 10] and the configured [nprobe] leaves them,
    whether it returns or raises: the filter works on arrays of its own. *)
Theorem search_with_filter_effects queries k filter_ids (f : Frame) :
  (search_with_filter queries k filter_ids f).1
    = (search queries (k * 10) None f).1.
Proof.
  destruct (search_with_filter queries k filter_ids f) as [f' r] eqn:Hrun.
  apply search_with_filter_frame in Hrun as [r0 ->]. reflexivity.
Qed.

(** The filtered search, as a function of the unfiltered one. *)
Lemma search_with_filter_run queries k filter_ids (f f' : Frame) found a :
  0 <= k ->
  search queries (k * 10) None f = (f', inr found) ->
  heap (world f') !! queries = Some a ->
  well_shaped (shape0 a) found ->
  search_with_filter queries k filter_ids f
    = (f', inr (filter_spec (Z.to_nat k) filter_ids found)).
Proof.
  intros Hk Hs Ha Hws. unfold search_with_filter.
  rewrite (bind_step _ _ _ _ _ Hs).
  rewrite (bind_step _ _ _ _ _ (deref_run _ _ _ Ha)).
  unfold np_full. destruct (k <? 0) eqn:E; [apply Z.ltb_lt in E; lia|].
  unfold bind at 1, ret at 1. unfold bind at 1, ret at 1.
  unfold with_locals, for_range.
  pose proof (filter_loop_run filter_ids found.1 found.2 (Z.to_nat k)
                (shape0 a)) as Hloop.
  destruct found as [distances indices]. simpl in Hloop |- *.
  specialize (Hloop Hws (shape0 a) 0%nat eq_refl).
  unfold written at 1 2 in Hloop. rewrite !take_0 in Hloop.
  simpl in Hloop. rewrite Nat.sub_0_r in Hloop.
  rewrite Z2Nat.id in Hloop by assumption.
  rewrite Hloop.
  destruct Hws as (Hd & Hi & _). simpl in Hd, Hi.
  rewrite !written_all; [reflexivity| |];
    unfold filter_spec; simpl;
    by rewrite !length_map, length_zip_with, Hd, Hi, Nat.min_id.
Qed.

Lemma survivors_all allowed (ds : list float) (ids : list Z) :
  Forall (fun id => id ∈ allowed) ids ->
  survivors allowed ds ids = zip ds ids.
Proof.
  unfold survivors. revert ids.
  induction ds as [|x ds IH]; intros [|id ids] Hall; try done.
  inversion Hall as [|? ? Hid Hall']. simpl.
  rewrite filter_cons_True by exact Hid. f_equal. by apply IH.
Qed.

Lemma filtered_row_all k allowed (ds : list float) (ids : list Z) :
  length ds = length ids -> (k <= length ds)%nat ->
  Forall (fun id => id ∈ allowed) ids ->
  (filtered_row k allowed ds ids).*1 = take k ds /\
  (filtered_row k allowed ds ids).*2 = take k ids.
Proof.
  intros Hlen Hk Hall. unfold filtered_row.
  rewrite (survivors_all _ _ _ Hall).
  rewrite length_take, length_zip.
  replace (k - k `min` (length ds `min` length ids))%nat with 0%nat by lia.
  simpl. rewrite app_nil_r, !fmap_take.
  rewrite fst_zip by lia. rewrite snd_zip by lia. done.
Qed.

(** X5: when every id the unfiltered search finds is allowed, and it finds at
    least [k] candidates per query, the filtered search returns the first
    [k] columns of the unfiltered result. *)
Theorem search_with_filter_all_allowed queries k filter_ids (f f' : Frame)
    distances ids a :
  0 <= k ->
  search queries (k * 10) None f = (f', inr (distances, ids)) ->
  heap (world f') !! queries = Some a ->
  well_shaped (shape0 a) (distances, ids) ->
  Forall (fun row => (Z.to_nat k <= length row)%nat) distances ->
  Forall (Forall (fun id => id ∈ filter_ids)) ids ->
  search_with_filter queries k filter_ids f
    = (f', inr (take (Z.to_nat k) <$> distances, take (Z.to_nat k) <$> ids)).
Proof.
  intros Hk Hs Ha Hws Hlong Hall.
  rewrite (search_with_filter_run _ _ filter_ids _ _ _ _ Hk Hs Ha Hws).
  f_equal. f_equal. unfold filter_spec. simpl.
  destruct Hws as (_ & _ & Hrows). simpl in Hrows.
  clear Hs Ha. revert Hlong Hall.
  induction Hrows as [|d i ds is_ Hlen Hrows IH]; intros Hlong Hall;
    [reflexivity|].
  inversion Hlong as [|? ? Hd Hlong']. inversion Hall as [|? ? Hi Hall'].
  subst. simpl.
  destruct (filtered_row_all (Z.to_nat k) filter_ids d i Hlen Hd Hi)
    as [E1 E2].
  specialize (IH Hlong' Hall'). injection IH as IH1 IH2.
  f_equal; f_equal; assumption.
Qed.

End FilterContents.

(** ** [__len__], [save] and the device copy *)
Section SizeAndCopy.
Context {P : Platform}.

#[local] Existing Instances same_self_refl same_self_trans.

Lemma len_mock (f : Frame) l :
  FAISS_AVAILABLE = false -> attrs (self f) = MockAttrs l ->
  __len__ f = (f, inr (Z.of_nat (length l))).
Proof.
  intros Hoff Ha. unfold __len__. rewrite Hoff. simpl.
  unfold bind, mock_vectors. by rewrite Ha.
Qed.

Lemma len_native (f : Frame) a :
  FAISS_AVAILABLE = true -> attrs (self f) = NativeAttrs a ->
  __len__ f = (f, inr (ntotal (cpu_index a))).
Proof.
  intros Hon Ha. unfold __len__. rewrite Hon. simpl.
  by rewrite (bind_step _ _ _ _ _ (native_attrs_run _ _ _ Ha)).
Qed.

(** The outcome of [__len__] is read off [self]. *)
Lemma len_of_self (f f' : Frame) :
  self f' = self f -> (__len__ f').2 = (__len__ f).2.
Proof.
  intros Hs. unfold __len__.
  destruct (negb FAISS_AVAILABLE); unfold bind, mock_vectors, native_attrs;
    rewrite Hs; by destruct (attrs (self f)).
Qed.

(** X6: without FAISS, an [add] that returns lets [__len__] grow by the number
    of rows of the batch, whatever ids are passed. *)
Theorem add_grows_len vectors ids (f f' : Frame) :
  FAISS_AVAILABLE = false ->
  add vectors ids f = (f', inr tt) ->
  exists a n,
    heap (world f) !! vectors = Some a /\
    (__len__ f).2 = inr n /\
    (__len__ f').2 = inr (n + Z.of_nat (shape0 a)).
Proof.
  intros Hoff Hrun.
  destruct (is_trained (self f)) eqn:Ht;
    [|by rewrite (add_untrained _ _ _ Ht) in Hrun].
  destruct (attrs (self f)) as [l|at_] eqn:Ha; cycle 1.
  { unfold add in Hrun. unfold bind at 1, gets in Hrun.
    rewrite Ht, Hoff in Hrun. simpl in Hrun.
    unfold bind at 1, mock_vectors in Hrun. by rewrite Ha in Hrun. }
  destruct (heap (world f) !! vectors) as [a|] eqn:Hv; cycle 1.
  { rewrite add_unbound in Hrun; [done|done|eauto|done]. }
  rewrite (add_mock _ _ _ _ _ Ht Hoff Ha Hv) in Hrun.
  injection Hrun as <-. exists a, (Z.of_nat (length l)).
  split; [reflexivity|]. rewrite (len_mock f l Hoff Ha).
  split; [reflexivity|].
  match goal with
  | |- context [__len__ ?g] =>
    rewrite (len_mock g (l ++ arr_rows a) Hoff eq_refl)
  end. simpl.
  rewrite length_app. unfold shape0. f_equal. lia.
Qed.

Lemma search_len queries k np (f : Frame) :
  (__len__ (search queries k np f).1).2 = (__len__ f).2.
Proof.
  destruct (heap (world f) !! queries) as [a|] eqn:Hq;
    [|by rewrite (search_unbound _ _ _ _ Hq)].
  destruct FAISS_AVAILABLE eqn:Hav.
  - rewrite (search_native _ _ _ _ _ Hav Hq). simpl.
    unfold searched. destruct (attrs (self f)) as [l|at_] eqn:Ha;
      [by apply len_of_self|].
    destruct (gpu_index at_); [|by apply len_of_self].
    rewrite (len_native f at_ Hav Ha).
    match goal with
    | |- context [__len__ ?g] => by rewrite (len_native g _ Hav eq_refl)
    end.
  - rewrite (search_mock _ _ _ _ _ Hav Hq). by destruct (k <? 0).
Qed.

Lemma search_with_filter_len queries k filter_ids (f : Frame) :
  (__len__ (search_with_filter queries k filter_ids f).1).2 = (__len__ f).2.
Proof.
  destruct (search_with_filter queries k filter_ids f) as [f' r] eqn:Hrun.
  apply search_with_filter_frame in Hrun as [r0 Hr0].
  pose proof (search_len queries (k * 10) None f) as Hs.
  by rewrite Hr0 in Hs.
Qed.

(** X7: [search], [search_with_filter] and [save] leave the number [__len__]
    reports as it was. *)
Theorem len_kept_by_reads (f : Frame) :
  (forall queries k np,
     (__len__ (search queries k np f).1).2 = (__len__ f).2) /\
  (forall queries k filter_ids,
     (__len__ (search_with_filter queries k filter_ids f).1).2
       = (__len__ f).2) /\
  (forall path, (__len__ (save path f).1).2 = (__len__ f).2).
Proof.
  split; [intros; apply search_len|].
  split; [intros; apply search_with_filter_len|].
  intros path. apply len_of_self.
  destruct (save path f) as [f' r] eqn:Hrun. by apply save_self in Hrun.
Qed.

(** X8: [save] reads the index: it leaves [self] and the caller's arrays
    alone, changes nothing at all when it raises or when FAISS is not
    there, and else leaves on the disk what FAISS wrote for the host
    index. *)
Theorem save_only_writes_disk path (f f' : Frame) r :
  save path f = (f', r) ->
  self f' = self f /\ heap (world f') = heap (world f) /\
  (forall e, r = inl e -> f' = f) /\
  (FAISS_AVAILABLE = false -> f' = f /\ r = inr tt) /\
  (FAISS_AVAILABLE = true -> r = inr tt ->
   exists a, attrs (self f) = NativeAttrs a /\
     write_index (cpu_index a) path (disk (world f))
       = inr (disk (world f'))).
Proof.
  intros Hrun. destruct FAISS_AVAILABLE eqn:Hav.
  - destruct (attrs (self f)) as [l|at_] eqn:Ha.
    + unfold save in Hrun. rewrite Hav in Hrun.
      rewrite (bind_raises _ _ _ _ _ (native_attrs_fails _ _ _ Ha)) in Hrun.
      injection Hrun as <- <-. repeat split; try done.
    + rewrite (save_native _ _ _ Hav Ha) in Hrun.
      destruct (write_index _ _ _) as [e|d] eqn:Hw; injection Hrun as <- <-.
      * repeat split; try done.
      * repeat split; try done. intros _ _. by exists at_.
  - rewrite (save_mock _ _ Hav) in Hrun. injection Hrun as <- <-.
    repeat split; try done.
Qed.

(** X9: without FAISS nothing is persisted: what [load] returns is untrained
    and empty, so that [add] on it raises the error of an untrained index,
    whatever was saved. *)
Theorem load_without_faiss path config (w w' : World) s :
  FAISS_AVAILABLE = false ->
  load path config w = (w', inr s) ->
  is_trained s = false /\
  (forall w0, (__len__ {| world := w0; self := s |}).2 = inr 0) /\
  (forall w0 vectors ids,
     add vectors ids {| world := w0; self := s |}
       = ({| world := w0; self := s |}, inl UntrainedIndexError)).
Proof.
  intros Hoff Hload. rewrite load_run, (init_mock _ Hoff), Hoff in Hload.
  injection Hload as _ <-. split; [reflexivity|]. split.
  - intros w0.
    match goal with
    | |- context [__len__ ?g] => by rewrite (len_mock g [] Hoff eq_refl)
    end.
  - intros w0 vectors ids. by apply add_untrained.
Qed.

(** X10: with no GPU ([num_gpus <= 0]) there is never a device copy: on every
    index a caller can hold, trained or not, [search] raises the
    [AttributeError] of [None]. *)
Theorem search_without_gpu (s : GPUVectorIndex) (w : World) queries k np a :
  FAISS_AVAILABLE = true ->
  reachable s ->
  num_gpus (config s) <= 0 ->
  heap w !! queries = Some a ->
  (search queries k np {| world := w; self := s |}).2
    = inl (AttributeError "'NoneType' object has no attribute 'nprobe'").
Proof.
  intros Hon Hreach Hn Hq. apply reachable_consistent in Hreach.
  unfold consistent in Hreach.
  destruct (attrs s) as [l|at_] eqn:Ha; [congruence|].
  destruct Hreach as (_ & Hr & _ & Hnone & _).
  assert (gpu_resources at_ = []) as Hnil.
  { rewrite Hr. unfold resources_of. destruct StandardGpuResources; [done|].
    by replace (Z.to_nat (num_gpus (config s))) with 0%nat by lia. }
  rewrite (search_native queries k np {| world := w; self := s |} a Hon Hq).
  simpl. by rewrite Ha, (Hnone Hnil).
Qed.

(** X11: [add] is not undone when the device copy fails: if FAISS adds the batch
    and the copy to the GPU then raises, [add] raises, the host index holds
    the batch, which [__len__] counts, and the device copy is the old
    one. *)
Theorem add_kept_when_copy_fails vectors ids (f : Frame) a at_ c e :
  is_trained (self f) = true ->
  FAISS_AVAILABLE = true ->
  heap (world f) !! vectors = Some a ->
  attrs (self f) = NativeAttrs at_ ->
  match ids with
  | Some ids =>
    index_add_with_ids (cpu_index at_) (arr_rows (prepared_array a)) ids
  | None => index_add (cpu_index at_) (arr_rows (prepared_array a))
  end = inr c ->
  sync_attrs (set_cpu_index c at_) = inl e ->
  (add vectors ids f).2 = inl e /\
  attrs (self (add vectors ids f).1) = NativeAttrs (set_cpu_index c at_) /\
  gpu_index (set_cpu_index c at_) = gpu_index at_ /\
  (__len__ (add vectors ids f).1).2 = inr (ntotal c).
Proof.
  intros Ht Hon Hv Ha Hadd Hsync.
  rewrite (add_native _ _ _ _ _ Ht Hon Hv Ha). simpl.
  rewrite Hadd, Hsync. simpl. repeat split.
  match goal with
  | |- context [__len__ ?g] => by rewrite (len_native g _ Hon eq_refl)
  end.
Qed.

(** X12: when [add] or [train] returns on an index a caller can hold, the device
    copy that [search] uses is the copy of the host index as it is now. *)
Theorem device_copy_follows (s : GPUVectorIndex) (w : World) vectors ids
    (f' : Frame) :
  FAISS_AVAILABLE = true ->
  reachable s ->
  add vectors ids {| world := w; self := s |} = (f', inr tt) \/
  train vectors {| world := w; self := s |} = (f', inr tt) ->
  exists a', attrs (self f') = NativeAttrs a' /\ device_current a'.
Proof.
  intros Hon Hreach Hrun.
  assert (reachable (self f') /\ is_trained (self f') = true) as [Hr' Ht'].
  { destruct Hrun as [Hrun|Hrun].
    - split; [by eapply reach_add|].
      destruct (is_trained s) eqn:Ht.
      + apply add_trained in Hrun. unfold same_trained in Hrun.
        simpl in Hrun. congruence.
      + by rewrite (add_untrained vectors ids {| world := w; self := s |} Ht)
          in Hrun.
    - split; [by eapply reach_train|].
      by apply train_trained in Hrun as [[_ ?]|[[e ?] _]]. }
  apply reachable_consistent in Hr'. unfold consistent in Hr'.
  destruct (attrs (self f')) as [l|a'] eqn:Ha'; [congruence|].
  exists a'. split; [reflexivity|]. by apply Hr'.
Qed.

End SizeAndCopy.

(** ** [__init__] *)
Section Init.
Context {P : Platform}.

Lemma new_gpu_resources_length (l : list nat) rs rs' :
  for_each l (fun _ => new_gpu_resource) rs = (rs', inr tt) ->
  length rs' = (length rs + length l)%nat.
Proof.
  revert rs. induction l as [|x l IH]; intros rs Hrun.
  - injection Hrun as <-. simpl. lia.
  - simpl in Hrun. unfold bind at 1, new_gpu_resource at 1 in Hrun.
    unfold bind at 1, lift, of_faiss, modify in Hrun.
    destruct StandardGpuResources as [e|res]; [discriminate|].
    apply IH in Hrun. rewrite Hrun, length_app. simpl. lia.
Qed.

(** X13: what [GPUVectorIndex(config)] builds when it returns: an untrained
    index that keeps the configuration; without FAISS it holds no vectors,
    with FAISS it holds one GPU resource per configured GPU (none for a
    count of zero or less), the cloner options of the configuration, and no
    device copy yet. *)
Theorem init_builds cfg s :
  __init__ cfg = inr s ->
  config s = cfg /\ self_dim s = dim cfg /\
  is_trained s = false /\
  (FAISS_AVAILABLE = false -> attrs s = MockAttrs []) /\
  (FAISS_AVAILABLE = true ->
   exists a,
     attrs s = NativeAttrs a /\ gpu_index a = None /\
     length (gpu_resources a) = Z.to_nat (num_gpus cfg) /\
     co a = {| shard := true; useFloat16 := use_float16 cfg |}).
Proof.
  intros Hinit. destruct FAISS_AVAILABLE eqn:Hav.
  - unfold __init__, for_range in Hinit. rewrite Hav in Hinit.
    simpl in Hinit.
    destruct (for_each _ _ _) as [rs [e|[]]] eqn:Hloop; [discriminate|].
    apply new_gpu_resources_length in Hloop. rewrite length_seq in Hloop.
    destruct (of_faiss (IndexFlatL2 _)) as [e|q]; [discriminate|].
    destruct (of_faiss (IndexIVFPQ _ _ _ _ _)) as [e|c]; [discriminate|].
    injection Hinit as <-. simpl. repeat split; [discriminate|].
    intros _. eexists. repeat split. exact Hloop.
  - rewrite (init_mock _ Hav) in Hinit. injection Hinit as <-.
    repeat split. discriminate.
Qed.

End Init.

(** * The service: one index, served in turn *)

(** ** What a handler does *)
Section ServiceRuns.
Context {P : Platform} {C : Clock}.

Lemma search_endpoint_handler r :
  search_endpoint r =
    handler (SearchRequest.vectors r)
      (fun queries =>
         if truthy (SearchRequest.filter_ids r) then
           search_with_filter queries (SearchRequest.k r)
             (default [] (SearchRequest.filter_ids r))
         else
           search queries (SearchRequest.k r)
             (Some (SearchRequest.nprobe r)))
      (fun start found stop =>
         {| SearchResponse.distances := found.1;
            SearchResponse.indices := found.2;
            SearchResponse.latency_ms := elapsed_ms start stop |}).
Proof. unfold search_endpoint, handler. by destruct (truthy _). Qed.

Lemma add_endpoint_handler r :
  add_endpoint r =
    handler (AddRequest.vectors r)
      (fun vectors =>
         add vectors (if truthy (AddRequest.ids r)
                      then AddRequest.ids r else None))
      (fun start _ stop =>
         {| AddResponse.count :=
              Z.of_nat (length (AddRequest.vectors r));
            AddResponse.latency_ms := elapsed_ms start stop |}).
Proof. reflexivity. Qed.

Lemma train_endpoint_handler r :
  train_endpoint r =
    handler (AddRequest.vectors r) train
      (fun start _ stop =>
         {| TrainResponse.status := "trained";
            TrainResponse.latency_ms := elapsed_ms start stop |}).
Proof. reflexivity. Qed.

Lemma get_index_run sv :
  get_index sv =
    match the_index sv with
    | inl e => (sv, inl e)
    | inr s =>
      ({| sworld := sworld sv; _index := Some s; ticks := ticks sv |}, inr tt)
    end.
Proof.
  unfold get_index, the_index. destruct sv as [w [s|] t]; [reflexivity|].
  simpl. by destruct (__init__ _).
Qed.

Lemma handler_run {A B} rows (method : nat -> Act Frame A)
    (response : float -> A -> float -> B) sv sv' x :
  handler rows method response sv = (sv', x) ->
  match the_index sv with
  | inl e => x = inl e /\ _index sv' = _index sv /\ sworld sv' = sworld sv
  | inr s =>
    if rectangular rows then
      exists f r,
        method (length (heap (sworld sv)))
          {| world := with_array rows (sworld sv); self := s |} = (f, r) /\
        _index sv' = Some (self f) /\ sworld sv' = world f /\
        match r with
        | inl e => x = inl e
        | inr a => exists start stop, x = inr (response start a stop)
        end
    else
      x = inl (ValueError "setting an array element with a sequence.") /\
      _index sv' = Some s /\ sworld sv' = sworld sv
  end.
Proof.
  unfold handler. unfold bind at 1, clock at 1.
  destruct (perf_counter (ticks sv)) as [t1 start].
  unfold bind at 1. rewrite get_index_run.
  replace (the_index {| sworld := sworld sv; _index := _index sv;
                        ticks := t1 |}) with (the_index sv) by reflexivity.
  destruct (the_index sv) as [e|s]; [by intros [= <- <-]|].
  cbn [sworld _index ticks].
  unfold bind at 1, np_array_float32. cbn [sworld _index ticks].
  destruct (rectangular rows); [|by intros [= <- <-]].
  unfold bind at 1, on_index. cbn [sworld _index ticks].
  fold (with_array rows (sworld sv)).
  destruct (method _ _) as [f [e|a]] eqn:Hm.
  - intros [= <- <-]. exists f, (inl e). eauto.
  - unfold bind, clock, ret. cbn [sworld _index ticks].
    destruct (perf_counter t1) as [t2 stop]. intros [= <- <-].
    exists f, (inr a). eauto 10.
Qed.

Lemma len_frame (f : Frame) : (__len__ f).1 = f.
Proof.
  unfold __len__.
  destruct (negb FAISS_AVAILABLE); unfold bind, mock_vectors, native_attrs;
    by destruct (attrs (self f)).
Qed.

Lemma health_run sv :
  health_endpoint sv =
    match the_index sv with
    | inl e => (sv, inl e)
    | inr s =>
      ({| sworld := sworld sv; _index := Some s; ticks := ticks sv |},
       match (__len__ {| world := sworld sv; self := s |}).2 with
       | inl e => inl e
       | inr n =>
         inr {| HealthResponse.status := "ok"; HealthResponse.vectors := n |}
       end)
    end.
Proof.
  unfold health_endpoint. unfold bind at 1. rewrite get_index_run.
  destruct (the_index sv) as [e|s]; [reflexivity|].
  unfold bind, on_index, ret. cbn [sworld _index ticks].
  pose proof (len_frame {| world := sworld sv; self := s |}) as Hf.
  destruct (__len__ _) as [f [e|n]]; simpl in Hf; by subst f.
Qed.

End ServiceRuns.

(** ** What the methods leave alone *)
Section Settings.
Context {P : Platform}.

#[local] Instance same_settings_refl : Reflexive same_settings.
Proof. by intros f. Qed.

#[local] Instance same_settings_trans : Transitive same_settings.
Proof.
  unfold same_settings. intros f1 f2 f3 (H1 & H1' & H1'') (H2 & H2' & H2'').
  repeat split; congruence.
Qed.

Lemma as_float32_settings v : keeps same_settings (as_float32 v).
Proof.
  unfold as_float32. apply keeps_bind; [apply _|by apply keeps_deref|].
  intros a. destruct (negb _); [|by apply keeps_ret].
  by intros f f' r [= <- <-].
Qed.

Lemma faiss_normalize_L2_settings v :
  keeps same_settings (faiss_normalize_L2 v).
Proof.
  unfold faiss_normalize_L2.
  apply keeps_bind; [apply _|by apply keeps_deref|].
  intros a. by apply keeps_modify.
Qed.

Lemma update_native_settings name g :
  keeps same_settings (update_native name g).
Proof.
  unfold update_native.
  apply keeps_bind; [apply _|by apply keeps_native_attrs|].
  intros a. by apply keeps_modify.
Qed.

Lemma sync_to_gpu_settings : keeps same_settings _sync_to_gpu.
Proof.
  unfold _sync_to_gpu. destruct (negb _); [by apply keeps_ret|].
  apply keeps_bind; [apply _|by apply keeps_native_attrs|].
  intros a. destruct (gpu_resources a); [by apply keeps_ret|].
  apply keeps_bind; [apply _|by apply keeps_pure|].
  intros h. apply update_native_settings.
Qed.

Ltac keeps_settings :=
  repeat first
    [ apply update_native_settings
    | apply sync_to_gpu_settings
    | apply as_float32_settings
    | apply faiss_normalize_L2_settings
    | apply keeps_bind; [apply _| |intros ?]
    | apply keeps_ret; apply _
    | apply keeps_raise; apply _
    | apply keeps_pure; apply _
    | apply keeps_gets; apply _
    | apply keeps_np_full; apply _
    | apply keeps_with_locals; apply _
    | apply keeps_deref; apply _
    | apply keeps_native_attrs; apply _
    | apply keeps_mock_vectors; apply _
    | apply keeps_modify; intros ?; done
    | match goal with
      | |- keeps _ (if ?b then _ else _) => destruct b
      | |- keeps _ (match ?x with _ => _ end) => destruct x
      end ].

Lemma train_settings vectors : keeps same_settings (train vectors).
Proof. unfold train. keeps_settings. Qed.

Lemma add_settings vectors ids : keeps same_settings (add vectors ids).
Proof. unfold add. keeps_settings. Qed.

Lemma search_settings queries k np : keeps same_settings (search queries k np).
Proof. unfold search. keeps_settings. Qed.

Lemma search_with_filter_settings queries k filter_ids :
  keeps same_settings (search_with_filter queries k filter_ids).
Proof.
  intros f f' r Hrun. apply search_with_filter_frame in Hrun as [r0 Hs].
  by apply search_settings in Hs.
Qed.

Lemma init_settings cfg s :
  __init__ cfg = inr s -> config s = cfg /\ self_dim s = dim cfg.
Proof.
  intros Hinit. destruct FAISS_AVAILABLE eqn:Hav.
  - by destruct (init_native _ _ Hav Hinit) as [c ->].
  - rewrite (init_mock _ Hav) in Hinit. by inversion Hinit.
Qed.

End Settings.

(** ** The global index over a run of requests *)
Section ServiceInvariants.
Context {P : Platform} {C : Clock}.

Lemma the_index_has (I : GPUVectorIndex -> Prop) sv s :
  is_Some (_index sv) \/
    (forall s, __init__ (default_config 768) = inr s -> I s) ->
  index_has I sv -> the_index sv = inr s -> I s.
Proof.
  unfold the_index, index_has. intros Hinit.
  destruct (_index sv); [by intros ? [= <-]|intros _].
  destruct Hinit as [[s0 Hs0]|Hinit]; [discriminate|apply Hinit].
Qed.

Lemma the_index_fails sv e :
  the_index sv = inl e -> __init__ (default_config 768) = inl e.
Proof. unfold the_index. by destruct (_index sv). Qed.

Lemma handler_index_has {A B} (I : GPUVectorIndex -> Prop) rows
    (method : nat -> Act Frame A) (response : float -> A -> float -> B)
    sv sv' x :
  is_Some (_index sv) \/
    (forall s, __init__ (default_config 768) = inr s -> I s) ->
  (forall v w s f r,
     I s -> method v {| world := w; self := s |} = (f, r) -> I (self f)) ->
  index_has I sv ->
  handler rows method response sv = (sv', x) ->
  index_has I sv'.
Proof.
  intros Hinit Hm Hsv Hrun. apply handler_run in Hrun.
  pose proof (fun s => the_index_has I sv s Hinit Hsv) as Hs.
  unfold index_has.
  destruct (the_index sv) as [e|s] eqn:Hthe.
  - destruct Hrun as (_ & -> & _). exact Hsv.
  - destruct (rectangular rows).
    + destruct Hrun as (f & r & Hrun & -> & _). eapply Hm; eauto.
    + destruct Hrun as (_ & -> & _). eauto.
Qed.

Lemma serve_index_has (I : GPUVectorIndex -> Prop) sv rq :
  is_Some (_index sv) \/
    (forall s, __init__ (default_config 768) = inr s -> I s) ->
  (forall v w s f r,
     I s -> train v {| world := w; self := s |} = (f, r) ->
     (forall t, rq <> PostTrain t) \/ I (self f)) ->
  (forall v ids w s f r,
     I s -> add v ids {| world := w; self := s |} = (f, r) -> I (self f)) ->
  (forall q k np w s f r,
     I s -> search q k np {| world := w; self := s |} = (f, r) ->
     I (self f)) ->
  index_has I sv -> index_has I (serve sv rq).1.
Proof.
  intros Hinit Htrain Hadd Hsearch Hsv.
  destruct rq as [r|r|r|]; simpl.
  - destruct (search_endpoint r sv) as [sv' x] eqn:Hrun. simpl.
    rewrite search_endpoint_handler in Hrun.
    eapply handler_index_has; [exact Hinit| |exact Hsv|exact Hrun].
    intros v w s f r0 Hs. simpl. destruct (truthy _); [|by apply Hsearch].
    intros Hf. apply search_with_filter_frame in Hf as [r1 Hf].
    by eapply Hsearch.
  - destruct (add_endpoint r sv) as [sv' x] eqn:Hrun. simpl.
    rewrite add_endpoint_handler in Hrun.
    eapply handler_index_has; [exact Hinit| |exact Hsv|exact Hrun].
    intros v w s f r0 Hs. apply Hadd, Hs.
  - destruct (train_endpoint r sv) as [sv' x] eqn:Hrun. simpl.
    rewrite train_endpoint_handler in Hrun.
    eapply handler_index_has; [exact Hinit| |exact Hsv|exact Hrun].
    intros v w s f r0 Hs Hf.
    destruct (Htrain _ _ _ _ _ Hs Hf) as [Hno|Hok]; [|exact Hok].
    by destruct (Hno r).
  - rewrite health_run.
    pose proof (fun s => the_index_has I sv s Hinit Hsv) as Hs.
    destruct (the_index sv) as [e|s]; [exact Hsv|]. by apply Hs.
Qed.

Lemma serve_keeps_index sv rq :
  is_Some (_index sv) -> is_Some (_index (serve sv rq).1).
Proof.
  intros [s Hs].
  assert (the_index sv = inr s) as Hthe by (unfold the_index; by rewrite Hs).
  assert (forall A B rows (method : nat -> Act Frame A)
            (response : float -> A -> float -> B) sv' x,
            handler rows method response sv = (sv', x) ->
            is_Some (_index sv')) as Hh.
  { intros A B rows method response sv' x Hrun. apply handler_run in Hrun.
    rewrite Hthe in Hrun. destruct (rectangular rows).
    - destruct Hrun as (f & r & _ & -> & _). eauto.
    - destruct Hrun as (_ & -> & _). eauto. }
  destruct rq as [r|r|r|]; simpl.
  - destruct (search_endpoint r sv) as [sv' x] eqn:Hrun.
    rewrite search_endpoint_handler in Hrun. eapply Hh, Hrun.
  - destruct (add_endpoint r sv) as [sv' x] eqn:Hrun.
    rewrite add_endpoint_handler in Hrun. eapply Hh, Hrun.
  - destruct (train_endpoint r sv) as [sv' x] eqn:Hrun.
    rewrite train_endpoint_handler in Hrun. eapply Hh, Hrun.
  - rewrite health_run, Hthe. simpl. eauto.
Qed.

Lemma serve_all_keeps_index sv rqs :
  is_Some (_index sv) -> is_Some (_index (serve_all sv rqs)).
Proof.
  revert sv. induction rqs as [|rq rqs IH]; intros sv Hsv; [exact Hsv|].
  simpl. apply IH. by apply serve_keeps_index.
Qed.

Lemma serve_all_index_has (I : GPUVectorIndex -> Prop) sv rqs :
  is_Some (_index sv) \/
    (forall s, __init__ (default_config 768) = inr s -> I s) ->
  Forall (fun rq =>
            forall v w s f r,
              I s -> train v {| world := w; self := s |} = (f, r) ->
              (forall t, rq <> PostTrain t) \/ I (self f)) rqs ->
  (forall v ids w s f r,
     I s -> add v ids {| world := w; self := s |} = (f, r) -> I (self f)) ->
  (forall q k np w s f r,
     I s -> search q k np {| world := w; self := s |} = (f, r) ->
     I (self f)) ->
  index_has I sv -> index_has I (serve_all sv rqs).
Proof.
  intros Hinit Htrain Hadd Hsearch. revert sv Hinit.
  induction Htrain as [|rq rqs Hrq _ IH]; intros sv Hinit Hsv; [exact Hsv|].
  simpl. apply IH; [|by apply serve_index_has].
  destruct Hinit as [Hsome|Hinit]; [left|by right].
  by apply serve_keeps_index.
Qed.

Lemma with_array_lookup rows (w : World) :
  heap (with_array rows w) !! length (heap w)
    = Some (NdArray float32 (map (map (astype_float32 float64)) rows)).
Proof. unfold with_array. simpl. by rewrite list_lookup_middle. Qed.

Lemma init_reachable s :
  __init__ (default_config 768) = inr s ->
  config s = default_config 768 /\ self_dim s = 768 /\ reachable s.
Proof.
  intros Hinit. destruct (init_settings _ _ Hinit) as [Hc Hd].
  split; [exact Hc|]. split; [exact Hd|]. by eapply reach_init.
Qed.

Lemma index_reachable sv rqs :
  _index sv = None ->
  index_has (fun s => config s = default_config 768 /\ self_dim s = 768 /\
                      reachable s) (serve_all sv rqs).
Proof.
  intros Hnone. apply serve_all_index_has.
  - right. apply init_reachable.
  - apply Forall_forall. intros rq _ v w s f r (Hc & Hd & Hr) Hrun. right.
    destruct (train_settings _ _ _ _ Hrun) as (Hc' & Hd' & _).
    simpl in Hc', Hd'. split; [congruence|]. split; [congruence|].
    by eapply reach_train.
  - intros v ids w s f r (Hc & Hd & Hr) Hrun.
    destruct (add_settings _ _ _ _ _ Hrun) as (Hc' & Hd' & _).
    simpl in Hc', Hd'. split; [congruence|]. split; [congruence|].
    by eapply reach_add.
  - intros q k np w s f r (Hc & Hd & Hr) Hrun.
    destruct (search_settings _ _ _ _ _ _ Hrun) as (Hc' & Hd' & _).
    simpl in Hc', Hd'. split; [congruence|]. split; [congruence|].
    by eapply reach_search.
  - unfold index_has. by rewrite Hnone.
Qed.

(** X14: from a process that starts without an index, whatever requests it
    has served: the global index, once there, has the configuration
    [GPUIndexConfig(dim=768)], and is an index the methods of the class
    built, so its resources, cloner options and device copy are those the
    class maintains. *)
Theorem service_index_settled sv rqs s :
  _index sv = None ->
  _index (serve_all sv rqs) = Some s ->
  config s = default_config 768 /\ self_dim s = 768 /\
  reachable s /\ consistent s.
Proof.
  intros Hnone Hs. pose proof (index_reachable sv rqs Hnone) as Hok.
  unfold index_has in Hok. rewrite Hs in Hok.
  destruct Hok as (Hc & Hd & Hr). repeat split; try assumption.
  by apply reachable_consistent.
Qed.

(** X15: no [/add] is served before a [/train]: from a process that starts
    without an index, after any requests other than [/train], [/add]
    raises: the [ValueError] of the untrained index, or that of
    [np.array] for rows of different lengths, or what the constructor of
    the index raised. *)
Theorem add_refused_before_train sv rqs r :
  _index sv = None ->
  Forall (fun rq => forall t, rq <> PostTrain t) rqs ->
  exists e,
    (serve (serve_all sv rqs) (PostAdd r)).2 = Raised e /\
    (e = UntrainedIndexError \/
     (rectangular (AddRequest.vectors r) = false /\
      e = ValueError "setting an array element with a sequence.") \/
     __init__ (default_config 768) = inl e).
Proof.
  intros Hnone Hrqs.
  pose proof (or_intror (init_untrained (default_config 768))
              : is_Some (_index (serve_all sv rqs)) \/ _) as Hinit.
  assert (index_has (fun s => is_trained s = false) (serve_all sv rqs))
    as Hun.
  { apply serve_all_index_has.
    - right. apply init_untrained.
    - eapply Forall_impl; [exact Hrqs|]. intros rq Hrq. eauto.
    - intros v ids w s f r0 Hs Hrun. apply add_trained in Hrun.
      unfold same_trained in Hrun. simpl in Hrun. congruence.
    - intros q k np w s f r0 Hs Hrun. apply search_trained in Hrun.
      unfold same_trained in Hrun. simpl in Hrun. congruence.
    - unfold index_has. by rewrite Hnone. }
  set (sv1 := serve_all sv rqs) in *. simpl.
  destruct (add_endpoint r sv1) as [sv' x] eqn:Hrun. simpl.
  rewrite add_endpoint_handler in Hrun. apply handler_run in Hrun.
  destruct (the_index sv1) as [e|s] eqn:Hthe.
  - destruct Hrun as (-> & _). apply the_index_fails in Hthe. eauto 10.
  - apply (the_index_has _ _ _ Hinit Hun) in Hthe.
    destruct (rectangular _).
    + destruct Hrun as (f & r0 & Hadd & _ & _ & Hx).
      rewrite add_untrained in Hadd by exact Hthe.
      injection Hadd as <- <-. subst x. eauto.
    + destruct Hrun as (-> & _). eauto 10.
Qed.

(** X16: once a [/train] has returned, the index stays trained: no later
    [/add] raises the [ValueError] of the untrained index, whatever was
    served in between; and without FAISS every later [/add] whose rows
    have one length returns. *)
Theorem add_served_after_train sv rqs t rqs' r :
  _index sv = None ->
  (serve (serve_all sv rqs) (PostTrain t)).2 = Returned ->
  let sv' := serve_all (serve (serve_all sv rqs) (PostTrain t)).1 rqs' in
  (serve sv' (PostAdd r)).2 <> Raised UntrainedIndexError /\
  (FAISS_AVAILABLE = false ->
   rectangular (AddRequest.vectors r) = true ->
   (serve sv' (PostAdd r)).2 = Returned).
Proof.
  intros Hnone Htrain sv'.
  set (I := fun s : GPUVectorIndex => reachable s /\ is_trained s = true).
  pose proof (index_reachable sv rqs Hnone) as Hok.
  set (sv1 := serve_all sv rqs) in *.
  assert (is_Some (_index (serve sv1 (PostTrain t)).1) /\
          index_has I (serve sv1 (PostTrain t)).1) as [Hsome Hsv2].
  { simpl in *. destruct (train_endpoint t sv1) as [sv2 x] eqn:Hrun.
    simpl in *. rewrite train_endpoint_handler in Hrun.
    apply handler_run in Hrun.
    destruct (the_index sv1) as [e|s] eqn:Hthe;
      [by destruct Hrun as (-> & _)|].
    apply (the_index_has _ _ _ (or_intror init_reachable) Hok) in Hthe.
    destruct Hthe as (_ & _ & Hr).
    destruct (rectangular _); [|by destruct Hrun as (-> & _)].
    destruct Hrun as (f & r0 & Hrun & Hi & _ & Hx).
    unfold index_has. rewrite Hi. split; [eauto|]. split.
    - by eapply reach_train.
    - destruct r0 as [e|[]]; [by subst x|].
      apply train_trained in Hrun as [[_ Ht]|[[e He] _]]; done. }
  assert (is_Some (_index sv') /\ index_has I sv') as [Hsome' Hsv'].
  { split; [by apply serve_all_keeps_index|].
    apply serve_all_index_has; [by left| | | |exact Hsv2].
    - apply Forall_forall. intros rq _ v w s f r0 [Hr Ht] Hrun. right.
      split; [by eapply reach_train|].
      apply train_trained in Hrun as [[_ Ht']|[_ Ht']]; simpl in *;
        congruence.
    - intros v ids w s f r0 [Hr Ht] Hrun. split; [by eapply reach_add|].
      apply add_trained in Hrun. unfold same_trained in Hrun.
      simpl in Hrun. congruence.
    - intros q k np w s f r0 [Hr Ht] Hrun.
      split; [by eapply reach_search|].
      apply search_trained in Hrun. unfold same_trained in Hrun.
      simpl in Hrun. congruence. }
  clearbody sv'. clear Hsome Hsv2. simpl.
  destruct (add_endpoint r sv') as [sv3 x] eqn:Hrun. simpl.
  rewrite add_endpoint_handler in Hrun. apply handler_run in Hrun.
  destruct Hsome' as [s Hs].
  assert (the_index sv' = inr s) as Hthe by (unfold the_index; by rewrite Hs).
  rewrite Hthe in Hrun. unfold index_has in Hsv'. rewrite Hs in Hsv'.
  destruct Hsv' as [Hr Ht].
  destruct (rectangular _).
  - destruct Hrun as (f & r0 & Hadd & _ & _ & Hx). split.
    + destruct r0 as [e|[]]; [subst x|by destruct Hx as (? & ? & ->)].
      intros [= ->].
      by eapply add_trained_no_state_error; [|exact Hadd|].
    + intros Hoff _. apply reachable_consistent in Hr.
      unfold consistent in Hr.
      destruct (attrs s) as [l|a] eqn:Ha; [|destruct Hr; congruence].
      erewrite add_mock in Hadd;
        [|exact Ht|exact Hoff|exact Ha|apply with_array_lookup].
      injection Hadd as <- <-. by destruct Hx as (? & ? & ->).
  - destruct Hrun as (-> & _). by split.
Qed.

End ServiceInvariants.

(** ** The disk, the filter and the count *)
Section ServiceEffects.
Context {P : Platform} {C : Clock}.

Lemma handler_disk {A B} rows (method : nat -> Act Frame A)
    (response : float -> A -> float -> B) sv sv' x :
  (forall v, keeps same_settings (method v)) ->
  handler rows method response sv = (sv', x) ->
  disk (sworld sv') = disk (sworld sv).
Proof.
  intros Hm Hrun. apply handler_run in Hrun.
  destruct (the_index sv) as [e|s]; [by destruct Hrun as (_ & _ & ->)|].
  destruct (rectangular rows); [|by destruct Hrun as (_ & _ & ->)].
  destruct Hrun as (f & r & Hrun & _ & -> & _).
  by destruct (Hm _ _ _ _ Hrun) as (_ & _ & ->).
Qed.

Lemma serve_disk sv rq : disk (sworld (serve sv rq).1) = disk (sworld sv).
Proof.
  destruct rq as [r|r|r|]; simpl.
  - destruct (search_endpoint r sv) as [sv' x] eqn:Hrun. simpl.
    rewrite search_endpoint_handler in Hrun.
    eapply handler_disk; [|exact Hrun]. intros v. simpl.
    destruct (truthy _);
      [apply search_with_filter_settings|apply search_settings].
  - destruct (add_endpoint r sv) as [sv' x] eqn:Hrun. simpl.
    rewrite add_endpoint_handler in Hrun.
    eapply handler_disk; [|exact Hrun]. intros v. apply add_settings.
  - destruct (train_endpoint r sv) as [sv' x] eqn:Hrun. simpl.
    rewrite train_endpoint_handler in Hrun.
    eapply handler_disk; [|exact Hrun]. apply train_settings.
  - rewrite health_run. by destruct (the_index sv).
Qed.

(** X17: the service keeps the index in memory only: whatever requests are
    served, in whatever state, the files on the disk stay as they were. *)
Theorem service_never_writes sv rqs :
  disk (sworld (serve_all sv rqs)) = disk (sworld sv).
Proof.
  revert sv. induction rqs as [|rq rqs IH]; intros sv; [reflexivity|].
  simpl. rewrite IH. apply serve_disk.
Qed.


Lemma reported_run sv :
  reported sv =
    match the_index sv with
    | inl e => inl e
    | inr s => (__len__ {| world := sworld sv; self := s |}).2
    end.
Proof.
  unfold reported. rewrite health_run.
  destruct (the_index sv) as [e|s]; [reflexivity|].
  by destruct (__len__ _).2.
Qed.

Lemma len_mock_inv (f : Frame) n :
  FAISS_AVAILABLE = false -> (__len__ f).2 = inr n ->
  exists l, attrs (self f) = MockAttrs l /\ n = Z.of_nat (length l).
Proof.
  intros Hoff. unfold __len__. rewrite Hoff. simpl.
  unfold bind, mock_vectors. destruct (attrs (self f)) as [l|a]; [|done].
  intros [= <-]. eauto.
Qed.

(** X19: without FAISS, [/health] counts what [/add] has accepted: a request
    leaves the reported number as it was, except an [/add] that returns,
    which raises it by the number of rows it was sent. *)
Theorem health_counts_adds sv rq n :
  FAISS_AVAILABLE = false ->
  reported sv = inr n ->
  reported (serve sv rq).1 =
    inr (match rq, (serve sv rq).2 with
         | PostAdd r, Returned =>
           n + Z.of_nat (length (AddRequest.vectors r))
         | _, _ => n
         end).
Proof.
  intros Hoff Hn. rewrite reported_run in Hn.
  destruct (the_index sv) as [e|s] eqn:Hthe; [discriminate|].
  destruct (len_mock_inv _ _ Hoff Hn) as (l & Ha & ->). simpl in Ha.
  assert (forall w s', attrs s' = MockAttrs l ->
            (__len__ {| world := w; self := s' |}).2
              = inr (Z.of_nat (length l))) as Hlen.
  { intros w s' Ha'.
    by rewrite (len_mock {| world := w; self := s' |} l Hoff Ha'). }
  assert (forall sv' s', _index sv' = Some s' -> attrs s' = MockAttrs l ->
            reported sv' = inr (Z.of_nat (length l))) as Hrep.
  { intros sv' s' Hi Ha'. rewrite reported_run. unfold the_index.
    rewrite Hi. by apply Hlen. }
  assert (forall sv' (f f0 : Frame), _index sv' = Some (self f) ->
            (__len__ f).2 = (__len__ f0).2 -> self f0 = s ->
            reported sv' = inr (Z.of_nat (length l))) as Hkept.
  { intros sv' f f0 Hi Hf Hf0. rewrite reported_run. unfold the_index.
    rewrite Hi.
    rewrite (len_of_self f {| world := sworld sv'; self := self f |})
      by reflexivity.
    rewrite Hf. destruct f0 as [w0 s0]. simpl in Hf0. subst s0.
    by apply Hlen. }
  destruct rq as [r|r|r|]; simpl.
  - destruct (search_endpoint r sv) as [sv' x] eqn:Hrun. simpl.
    rewrite search_endpoint_handler in Hrun. apply handler_run in Hrun.
    rewrite Hthe in Hrun. destruct (rectangular _);
      [|destruct Hrun as (_ & Hi & _); by eapply Hrep].
    destruct Hrun as (f & r0 & Hrun & Hi & _).
    destruct (truthy _).
    + match type of Hrun with
      | _ ?g = _ => apply (Hkept sv' f g Hi); [|reflexivity]
      end.
      replace f with (f, r0).1 by reflexivity. rewrite <- Hrun.
      apply search_with_filter_len.
    + match type of Hrun with
      | _ ?g = _ => apply (Hkept sv' f g Hi); [|reflexivity]
      end.
      replace f with (f, r0).1 by reflexivity. rewrite <- Hrun.
      apply search_len.
  - destruct (add_endpoint r sv) as [sv' x] eqn:Hrun. simpl.
    rewrite add_endpoint_handler in Hrun. apply handler_run in Hrun.
    rewrite Hthe in Hrun. destruct (rectangular _);
      [|destruct Hrun as (-> & Hi & _); by eapply Hrep].
    destruct Hrun as (f & r0 & Hrun & Hi & _ & Hx).
    destruct (is_trained s) eqn:Ht.
    + erewrite add_mock in Hrun;
        [|exact Ht|exact Hoff|exact Ha|apply with_array_lookup].
      injection Hrun as <- <-. destruct Hx as (start & stop & ->). simpl.
      rewrite reported_run. unfold the_index. rewrite Hi.
      match goal with
      | |- context [__len__ ?g] =>
        rewrite (len_mock g (l ++ map (map (astype_float32 float64))
                                    (AddRequest.vectors r)) Hoff eq_refl)
      end.
      rewrite length_app, length_map. simpl. f_equal. lia.
    + rewrite add_untrained in Hrun by exact Ht.
      injection Hrun as <- <-. subst x. simpl. by eapply Hrep.
  - destruct (train_endpoint r sv) as [sv' x] eqn:Hrun. simpl.
    rewrite train_endpoint_handler in Hrun. apply handler_run in Hrun.
    rewrite Hthe in Hrun. destruct (rectangular _);
      [|destruct Hrun as (_ & Hi & _); by eapply Hrep].
    destruct Hrun as (f & r0 & Hrun & Hi & _).
    rewrite (train_mock _ _ Hoff) in Hrun. injection Hrun as <- <-.
    by eapply Hrep.
  - rewrite health_run, Hthe. simpl. by eapply Hrep.
Qed.

End ServiceEffects.

(** ** These theorems at the example inputs *)

Lemma search_with_filter_shape_witness :
  let f := Host.filled_frame true in
  search_with_filter 1 1 [1] f
    = ((search_with_filter 1 1 [1] f).1, inr ([[Host.Num 11]], [[1]])) /\
  exists a,
    heap (world (search_with_filter 1 1 [1] f).1) !! 1%nat = Some a /\
    0 <= 1 /\
    length [[Host.Num 11]] = shape0 a /\ length [[1]] = shape0 a /\
    Forall (fun row => Z.of_nat (length row) = 1) [[Host.Num 11]] /\
    Forall (fun row => Z.of_nat (length row) = 1) [[1]].
Proof.
  intros f. split; [reflexivity|].
  exact (search_with_filter_shape (P := Host.platform true) 1 1 [1] f
           (search_with_filter 1 1 [1] f).1 [[Host.Num 11]] [[1]] eq_refl).
Defined.

Lemma search_with_filter_negative_k_witness :
  -1 < 0 /\
  exists e,
    (search_with_filter 1 (-1) [1] (Host.filled_frame true)).2 = inl e.
Proof.
  split; [reflexivity|].
  exact (search_with_filter_negative_k (P := Host.platform true) 1 (-1) [1]
           (Host.filled_frame true) eq_refl).
Defined.

Lemma search_with_filter_nothing_allowed_witness :
  let f := Host.filled_frame true in
  search_with_filter 1 1 [] f
    = ((search_with_filter 1 1 [] f).1, inr ([[Host.Inf]], [[-1]])) /\
  exists a,
    heap (world (search_with_filter 1 1 [] f).1) !! 1%nat = Some a /\
    ([[Host.Inf]] : list (list (@float (Host.platform true))))
      = replicate (shape0 a) (replicate (Z.to_nat 1) np_inf) /\
    [[-1]] = replicate (shape0 a) (replicate (Z.to_nat 1) (-1)).
Proof.
  intros f. split; [reflexivity|].
  exact (search_with_filter_nothing_allowed (P := Host.platform true) 1 1 f
           (search_with_filter 1 1 [] f).1 [[Host.Inf]] [[-1]] eq_refl).
Defined.

Lemma search_with_filter_all_allowed_witness :
  let f := Host.filled_frame true in
  let found := search 1 (1 * 10) None f in
  found.2 = inr ([[Host.Num 4; Host.Num 11; Host.Inf; Host.Inf; Host.Inf;
                   Host.Inf; Host.Inf; Host.Inf; Host.Inf; Host.Inf]],
                 [[0; 1; -1; -1; -1; -1; -1; -1; -1; -1]]) /\
  search_with_filter 1 1 [0; 1; -1] f
    = (found.1, inr ([[Host.Num 4]], [[0]])).
Proof.
  intros f found. split; [reflexivity|].
  refine (search_with_filter_all_allowed (P := Host.platform true)
            1 1 [0; 1; -1] f found.1
            [[Host.Num 4; Host.Num 11; Host.Inf; Host.Inf; Host.Inf;
              Host.Inf; Host.Inf; Host.Inf; Host.Inf; Host.Inf]]
            [[0; 1; -1; -1; -1; -1; -1; -1; -1; -1]]
            (Host.array true float32 [[1; 0; 0; 0]])
            _ eq_refl eq_refl _ _ _).
  - lia.
  - split; [reflexivity|]. split; [reflexivity|].
    repeat constructor.
  - repeat constructor; simpl; lia.
  - repeat constructor.
Defined.

Lemma add_grows_len_witness :
  let f := Host.trained_frame false in
  add 0 None f = ((add 0 None f).1, inr tt) /\
  exists a n,
    heap (world f) !! 0%nat = Some a /\
    (__len__ f).2 = inr n /\
    (__len__ (add 0 None f).1).2 = inr (n + Z.of_nat (shape0 a)).
Proof.
  intros f. split; [reflexivity|].
  exact (add_grows_len (P := Host.platform false) 0 None f (add 0 None f).1
           eq_refl eq_refl).
Defined.

Lemma save_only_writes_disk_witness :
  let f := Host.filled_frame true in
  let f' := (save "index.faiss" f).1 in
  save "index.faiss" f = (f', inr tt) /\
  self f' = self f /\ heap (world f') = heap (world f) /\
  exists a, attrs (self f) = NativeAttrs a /\
    write_index (cpu_index a) "index.faiss" (disk (world f))
      = inr (disk (world f')).
Proof.
  intros f f'. split; [reflexivity|].
  destruct (save_only_writes_disk (P := Host.platform true) "index.faiss"
              f f' (inr tt) eq_refl) as (Hs & Hh & _ & _ & Hw).
  split; [exact Hs|]. split; [exact Hh|]. exact (Hw eq_refl eq_refl).
Defined.

Lemma load_without_faiss_witness :
  let w := Host.start false in
  let s := Host.fresh false Host.small in
  load "index.faiss" Host.small w = (w, inr s) /\
  is_trained s = false /\
  (__len__ {| world := w; self := s |}).2 = inr 0 /\
  add 0 None {| world := w; self := s |}
    = ({| world := w; self := s |}, inl UntrainedIndexError).
Proof.
  intros w s. split; [reflexivity|].
  destruct (load_without_faiss (P := Host.platform false) "index.faiss"
              Host.small w w s eq_refl eq_refl) as (Ht & Hl & Ha).
  split; [exact Ht|]. split; [exact (Hl w)|exact (Ha w 0%nat None)].
Defined.

Lemma search_without_gpu_witness :
  let f := (train 0 (Host.fresh_frame true Host.host_only)) in
  f.2 = inr tt /\ is_trained (self f.1) = true /\
  (search 1 1 None {| world := world f.1; self := self f.1 |}).2
    = inl (AttributeError "'NoneType' object has no attribute 'nprobe'").
Proof.
  intros f. split; [reflexivity|]. split; [reflexivity|].
  refine (search_without_gpu (P := Host.platform true) (self f.1)
            (world f.1) 1 1 None (Host.array true float32 [[2; 0; 0; 0]])
            eq_refl _ _ eq_refl).
  - apply (reach_train (Host.fresh true Host.host_only) 0
             (Host.start true) f.1 f.2); [|reflexivity].
    by apply (reach_init Host.host_only).
  - simpl. lia.
Defined.

Lemma add_kept_when_copy_fails_witness :
  let f := Host.crowded_frame in
  is_trained (self f) = true /\
  (add 0 None f).2
    = inl (@FaissError (Host.platform_with_memory 1) "out of memory") /\
  (__len__ f).2 = inr 0 /\
  (__len__ (add 0 None f).1).2 = inr 2.
Proof.
  intros f. split; [reflexivity|].
  destruct (add_kept_when_copy_fails (P := Host.platform_with_memory 1)
              0 None f _ _ _
              (@FaissError (Host.platform_with_memory 1) "out of memory")
              eq_refl eq_refl eq_refl eq_refl eq_refl eq_refl)
    as (Hr & _ & _ & Hl).
  split; [exact Hr|]. split; [reflexivity|exact Hl].
Defined.

Lemma device_copy_follows_witness :
  let f := Host.fresh_frame true Host.small in
  train 0 f = ((train 0 f).1, inr tt) /\
  exists a', attrs (self (train 0 f).1) = NativeAttrs a' /\
             device_current a'.
Proof.
  intros f. split; [reflexivity|].
  refine (device_copy_follows (P := Host.platform true)
            (Host.fresh true Host.small) (Host.start true) 0 None
            (train 0 f).1 eq_refl _ (or_intror eq_refl)).
  by apply (reach_init Host.small).
Defined.

Lemma init_builds_witness :
  let s := Host.fresh true Host.small in
  __init__ Host.small = inr s /\
  config s = Host.small /\ self_dim s = 4 /\ is_trained s = false /\
  exists a,
    attrs s = NativeAttrs a /\ gpu_index a = None /\
    length (gpu_resources a) = 1%nat /\
    co a = {| shard := true; useFloat16 := true |}.
Proof.
  intros s. split; [reflexivity|].
  destruct (init_builds (P := Host.platform true) Host.small s eq_refl)
    as (Hc & Hd & Ht & _ & Ha).
  split; [exact Hc|]. split; [exact Hd|]. split; [exact Ht|].
  exact (Ha eq_refl).
Defined.

Lemma service_index_settled_witness :
  let sv := serve_all (HostService.boot true)
              [GetHealth; PostAdd (HostService.batch true);
               PostSearch (HostService.query true None)] in
  exists s,
    _index sv = Some s /\
    config s = default_config 768 /\ self_dim s = 768 /\
    reachable s /\ consistent s.
Proof.
  intros sv. eexists. split; [reflexivity|].
  apply (service_index_settled (P := Host.platform true)
           (C := HostService.clock true) (HostService.boot true)
           [GetHealth; PostAdd (HostService.batch true);
            PostSearch (HostService.query true None)]);
    reflexivity.
Defined.

Lemma add_refused_before_train_witness :
  let rqs := [GetHealth; PostSearch (HostService.query false None);
              PostAdd (HostService.batch false)] in
  exists e,
    (serve (serve_all (HostService.boot false) rqs)
           (PostAdd (HostService.batch false))).2 = Raised e /\
    (e = UntrainedIndexError \/
     (rectangular (AddRequest.vectors (HostService.batch false)) = false /\
      e = ValueError "setting an array element with a sequence.") \/
     __init__ (default_config 768) = inl e).
Proof.
  intros rqs.
  refine (add_refused_before_train (P := Host.platform false)
            (C := HostService.clock false) (HostService.boot false) rqs
            (HostService.batch false) eq_refl _).
  repeat constructor; discriminate.
Defined.

Lemma add_served_after_train_witness :
  let sv := (serve (serve_all (HostService.boot false) [GetHealth])
                   (PostTrain (HostService.batch false))).1 in
  let sv' := serve_all sv [PostSearch (HostService.query false (Some [1]));
                           PostAdd (HostService.batch false)] in
  (serve sv' (PostAdd (HostService.batch false))).2
    <> Raised UntrainedIndexError /\
  (serve sv' (PostAdd (HostService.batch false))).2 = Returned.
Proof.
  intros sv sv'.
  destruct (add_served_after_train (P := Host.platform false)
              (C := HostService.clock false) (HostService.boot false)
              [GetHealth] (HostService.batch false)
              [PostSearch (HostService.query false (Some [1]));
               PostAdd (HostService.batch false)]
              (HostService.batch false) eq_refl eq_refl) as [Hno Hret].
  split; [exact Hno|exact (Hret eq_refl eq_refl)].
Defined.


Lemma health_counts_adds_witness :
  let sv := (serve (HostService.boot false)
                   (PostTrain (HostService.batch false))).1 in
  reported sv = inr 0 /\
  (serve sv (PostAdd (HostService.batch false))).2 = Returned /\
  reported (serve sv (PostAdd (HostService.batch false))).1 = inr 2.
Proof.
  intros sv. split; [reflexivity|]. split; [reflexivity|].
  exact (health_counts_adds (P := Host.platform false)
           (C := HostService.clock false) sv
           (PostAdd (HostService.batch false)) 0 eq_refl eq_refl).
Defined.
